(** * A four-function calculator: the state reducer of [components/Calculator.tsx]

    The component keeps one [CalculatorState] and replaces it on every button
    press.  The reducer is embedded here as a pure step function; the
    JavaScript built-ins it calls ([parseFloat], [String], [Number.isFinite]
    and binary64 arithmetic) are embedded in the module [JS], on top of the
    IEEE 754 specification of the Standard Library ([SpecFloat]). *)

From Stdlib Require Import ZArith Bool List Ascii String Lia.
From Stdlib Require Import SpecFloat.
Import ListNotations.

Local Open Scope Z_scope.

(** ** JavaScript numbers and their conversions *)

Module JS.

(** A Number is an IEEE 754 binary64 value. *)
Definition prec : Z := 53.
Definition emax : Z := 1024.

Definition number : Type := spec_float.

Definition NaN : number := S754_nan.
Definition Infinity : number := S754_infinity false.

(** Integer literals of the source ([0], [-1], [100]). *)
Definition of_Z (z : Z) : number := binary_normalize prec emax z 0 false.

Definition add : number -> number -> number := SFadd prec emax.
Definition sub : number -> number -> number := SFsub prec emax.
Definition mul : number -> number -> number := SFmul prec emax.
Definition div : number -> number -> number := SFdiv prec emax.

(** [x === y] on two Numbers: IEEE equality, so [NaN] differs from
    everything and the two zeros are equal. *)
Definition strict_eq (x y : number) : bool := SFeqb x y.

(** [Number.isFinite]. *)
Definition isFinite (x : number) : bool :=
  match x with
  | S754_zero _ | S754_finite _ _ _ => true
  | S754_infinity _ | S754_nan => false
  end.

(** Representation equality, used to compare a rounded decimal with the
    Number it should denote. *)
Definition same (x y : number) : bool :=
  match x, y with
  | S754_zero a, S754_zero b => Bool.eqb a b
  | S754_infinity a, S754_infinity b => Bool.eqb a b
  | S754_nan, S754_nan => true
  | S754_finite a m e, S754_finite b m' e' =>
      Bool.eqb a b && Pos.eqb m m' && Z.eqb e e'
  | _, _ => false
  end.

(** Equality of numeric values: [same], except that the sign of a zero is
    ignored. *)
Definition same_value (x y : number) : bool :=
  match x, y with
  | S754_zero _, S754_zero _ => true
  | _, _ => same x y
  end.

(** *** Decimal digits *)

Definition chars : Type := list ascii.

Definition is_digit (c : ascii) : bool :=
  ((48 <=? N_of_ascii c) && (N_of_ascii c <=? 57))%N.

Definition digit_val (c : ascii) : Z := Z.of_N (N_of_ascii c) - 48.

Definition digit_char (d : Z) : ascii := ascii_of_N (48 + Z.to_N d).

Definition digits_value (ds : chars) : Z :=
  fold_left (fun a c => 10 * a + digit_val c) ds 0.

Fixpoint dec_digits_aux (fuel : nat) (n : Z) (acc : chars) : chars :=
  match fuel with
  | O => acc
  | S f =>
      let acc' := digit_char (n mod 10) :: acc in
      if n <? 10 then acc' else dec_digits_aux f (n / 10) acc'
  end.

(** The decimal digits of [n >= 0], most significant first. *)
Definition dec_digits (n : Z) : chars :=
  dec_digits_aux (S (Z.to_nat (Z.log2 n))) n [].

(** The number [k] of decimal digits of [s]. *)
Definition ndigits (s : Z) : Z := Z.of_nat (List.length (dec_digits s)).

Fixpoint span_digits (l : chars) : chars * chars :=
  match l with
  | c :: r =>
      if is_digit c
      then let (ds, rest) := span_digits r in (c :: ds, rest)
      else ([], l)
  | [] => ([], [])
  end.

(** *** Rounding a decimal to a Number *)

(** The Number nearest to [mant * 10^exp10] (ties to even), with the sign
    [neg]; [mant >= 0]. *)
Definition round_decimal (neg : bool) (mant exp10 : Z) : number :=
  match mant * 10 ^ Z.max exp10 0, 10 ^ Z.max (- exp10) 0 with
  | Zpos p, Zpos q => div (S754_finite neg p 0) (S754_finite false q 0)
  | _, _ => S754_zero neg
  end.

(** *** [parseFloat] *)

Inductive str_literal : Type :=
| LitInfinity (neg : bool)
| LitDecimal (neg : bool) (mant : Z) (exp10 : Z).

Definition is_white (c : ascii) : bool :=
  let n := N_of_ascii c in
  (((9 <=? n) && (n <=? 13)) || (n =? 32) || (n =? 160))%N.

Fixpoint trim_start (l : chars) : chars :=
  match l with
  | c :: r => if is_white c then trim_start r else l
  | [] => []
  end.

Fixpoint starts_with (p l : chars) : bool :=
  match p, l with
  | [], _ => true
  | a :: p', b :: l' => Ascii.eqb a b && starts_with p' l'
  | _ :: _, [] => false
  end.

Definition is_exp_indicator (c : ascii) : bool :=
  Ascii.eqb c "e" || Ascii.eqb c "E".

(** [ExponentPart], when one is there: [e] or [E], an optional sign, and at
    least one digit.  Otherwise the literal ends before it. *)
Definition parse_exponent (l : chars) : Z :=
  match l with
  | c :: r =>
      if is_exp_indicator c then
        let '(neg, r') :=
          match r with
          | s :: r' =>
              if Ascii.eqb s "+" then (false, r')
              else if Ascii.eqb s "-" then (true, r')
              else (false, r)
          | [] => (false, r)
          end in
        match fst (span_digits r') with
        | [] => 0
        | ds => if neg then - digits_value ds else digits_value ds
        end
      else 0
  | [] => 0
  end.

(** The longest prefix that is a [StrUnsignedDecimalLiteral]. *)
Definition parse_unsigned (neg : bool) (l : chars) : option str_literal :=
  if starts_with (list_ascii_of_string "Infinity") l then Some (LitInfinity neg)
  else
    let '(ip, r1) := span_digits l in
    let '(fp, r2) :=
      match r1 with
      | c :: r => if Ascii.eqb c "." then span_digits r else ([], r1)
      | [] => ([], r1)
      end in
    match ip ++ fp with
    | [] => None
    | ds => Some (LitDecimal neg (digits_value ds)
                    (parse_exponent r2 - Z.of_nat (List.length fp)))
    end.

(** The longest prefix that is a [StrDecimalLiteral]. *)
Definition parse_literal (l : chars) : option str_literal :=
  match l with
  | c :: r =>
      if Ascii.eqb c "+" then parse_unsigned false r
      else if Ascii.eqb c "-" then parse_unsigned true r
      else parse_unsigned false l
  | [] => None
  end.

Definition literal_value (o : option str_literal) : number :=
  match o with
  | None => NaN
  | Some (LitInfinity neg) => S754_infinity neg
  | Some (LitDecimal neg mant exp10) => round_decimal neg mant exp10
  end.

Definition parseFloat_chars (l : chars) : number :=
  literal_value (parse_literal (trim_start l)).

Definition parseFloat (s : string) : number :=
  parseFloat_chars (list_ascii_of_string s).

(** *** [String(x)], that is [Number::toString(x, 10)] *)

(** The text for the digits [ds] (there are [k] of them) of a value in
    [10^(n-1), 10^n). *)
Definition format_decimal (ds : chars) (n : Z) : chars :=
  let k := Z.of_nat (List.length ds) in
  if (-5 <=? n) && (n <=? 21) then
    if k <=? n then ds ++ repeat "0"%char (Z.to_nat (n - k))
    else if 0 <? n then
      firstn (Z.to_nat n) ds ++ "."%char :: skipn (Z.to_nat n) ds
    else "0"%char :: "."%char :: repeat "0"%char (Z.to_nat (- n)) ++ ds
  else
    let e := n - 1 in
    let exp_part :=
      "e"%char :: (if e <? 0 then "-"%char else "+"%char)
               :: dec_digits (Z.abs e) in
    match ds with
    | [] => exp_part
    | [d] => d :: exp_part
    | d :: rest => d :: "."%char :: rest ++ exp_part
    end.

Fixpoint leading_zeros (fuel : nat) (num den : Z) : Z :=
  match fuel with
  | O => 0
  | S f =>
      if den <=? 10 * num then 0
      else 1 + leading_zeros f (10 * num) den
  end.

(** The [n] with [10^(n-1) <= num/den < 10^n], for [num/den > 0]. *)
Definition dec_exponent (num den : Z) : Z :=
  if den <=? num then ndigits (num / den)
  else - leading_zeros (S (Z.to_nat (Z.log2 den))) num den.

(** The two [k]-digit integers [s] around [num/den * 10^(k-n)], the nearer
    one first (the even one on a tie), each with its own [n]. *)
Definition candidates (num den n k : Z) : (Z * Z) * (Z * Z) :=
  let sn := num * 10 ^ Z.max (k - n) 0 in
  let sd := den * 10 ^ Z.max (n - k) 0 in
  let lo := sn / sd in
  let r := sn mod sd in
  let norm s := if s =? 10 ^ k then (10 ^ (k - 1), n + 1) else (s, n) in
  let lo_first :=
    match 2 * r ?= sd with
    | Lt => true
    | Gt => false
    | Eq => Z.even lo
    end in
  if lo_first then (norm lo, norm (lo + 1)) else (norm (lo + 1), norm lo).

(** Does the integer [s], of [k] digits, with the exponent [n] denote [x]?
    (ECMAScript: "F(s * 10^(n-k)) is x".) *)
Definition denotes (x : number) (sn : Z * Z) : bool :=
  same (round_decimal false (fst sn) (snd sn - ndigits (fst sn))) x.

(** The least [k] from [k] on, at most [fuel] steps, with a [k]-digit
    decimal that denotes [x]. *)
Fixpoint shortest (fuel : nat) (x : number) (num den n k : Z)
  : option (Z * Z) :=
  match fuel with
  | O => None
  | S f =>
      let '(c1, c2) := candidates num den n k in
      if denotes x c1 then Some c1
      else if denotes x c2 then Some c2
      else shortest f x num den n (k + 1)
  end.

(** The exact decimal expansion of [m * 2^e]: its digits as an integer and
    its [n]. *)
Definition exact_decimal (m : positive) (e : Z) : Z * Z :=
  if 0 <=? e
  then let s := Zpos m * 2 ^ e in (s, ndigits s)
  else let s := Zpos m * 5 ^ (- e) in (s, ndigits s + e).

(** The digits and exponent [String] prints for the positive Number
    [m * 2^e].  Seventeen digits are enough for every binary64; the exact
    expansion, which always denotes the Number, ends the search. *)
Definition shortest_decimal (m : positive) (e : Z) : Z * Z :=
  let num := Zpos m * 2 ^ Z.max e 0 in
  let den := 2 ^ Z.max (- e) 0 in
  match shortest 17 (S754_finite false m e) num den (dec_exponent num den) 1 with
  | Some sn => sn
  | None => exact_decimal m e
  end.

Definition toString_chars (x : number) : chars :=
  match x with
  | S754_nan => list_ascii_of_string "NaN"
  | S754_zero _ => list_ascii_of_string "0"
  | S754_infinity neg =>
      (if neg then ["-"%char] else []) ++ list_ascii_of_string "Infinity"
  | S754_finite neg m e =>
      let '(s, n) := shortest_decimal m e in
      (if neg then ["-"%char] else []) ++ format_decimal (dec_digits s) n
  end.

Definition toString (x : number) : string :=
  string_of_list_ascii (toString_chars x).

(** [x] with a negative zero replaced by the positive one. *)
Definition positive_zero (x : number) : number :=
  match x with
  | S754_zero _ => S754_zero false
  | _ => x
  end.

End JS.

(** ** The calculator *)

Local Open Scope string_scope.

(** The texts of the buttons that reach [handleDigit] and [handleOperator]. *)
Inductive digit_key : Type := D0 | D1 | D2 | D3 | D4 | D5 | D6 | D7 | D8 | D9.

Definition digit_text (d : digit_key) : string :=
  match d with
  | D0 => "0" | D1 => "1" | D2 => "2" | D3 => "3" | D4 => "4"
  | D5 => "5" | D6 => "6" | D7 => "7" | D8 => "8" | D9 => "9"
  end.

Inductive operator_key : Type := KAdd | KSub | KMul | KDiv.

Definition operator_text (k : operator_key) : string :=
  match k with
  | KAdd => "+" | KSub => "-" | KMul => "*" | KDiv => "/"
  end.

Record CalculatorState : Type := mkState {
  displayValue : string;
  operator : option string;
  firstOperand : option JS.number;
  waitingForSecondOperand : bool;
  activeOperator : option string
}.

(** The argument of [useState]; [handleClear] sets it again. *)
Definition initialState : CalculatorState :=
  {| displayValue := "0";
     operator := None;
     firstOperand := None;
     waitingForSecondOperand := false;
     activeOperator := None |}.

(** The object both [handleOperator] and [handleEquals] return on a result
    that is not finite. *)
Definition errorState : CalculatorState :=
  {| displayValue := "Error";
     operator := None;
     firstOperand := None;
     waitingForSecondOperand := false;
     activeOperator := None |}.

(** [s.includes(c)] for a one-character search string. *)
Fixpoint includes (s : string) (c : ascii) : bool :=
  match s with
  | EmptyString => false
  | String a r => Ascii.eqb a c || includes r c
  end.

(** [o === s] for a field that is a string or [null]. *)
Definition is_string (o : option string) (s : string) : bool :=
  match o with
  | Some t => String.eqb t s
  | None => false
  end.

(** Truthiness of a string: every string but the empty one. *)
Definition truthy (s : string) : bool :=
  match s with
  | EmptyString => false
  | String _ _ => true
  end.

Definition performOperation (operator : string) (operand1 operand2 : JS.number)
  : JS.number :=
  if String.eqb operator "+" then JS.add operand1 operand2
  else if String.eqb operator "-" then JS.sub operand1 operand2
  else if String.eqb operator "*" then JS.mul operand1 operand2
  else if String.eqb operator "/" then
    if JS.strict_eq operand2 (JS.of_Z 0) then JS.Infinity
    else JS.div operand1 operand2
  else operand2.

Definition handleDigit (digit : string) (prevState : CalculatorState)
  : CalculatorState :=
  {| displayValue :=
       if waitingForSecondOperand prevState
          || String.eqb (displayValue prevState) "0"
       then digit
       else displayValue prevState ++ digit;
     operator := operator prevState;
     firstOperand := firstOperand prevState;
     waitingForSecondOperand := false;
     activeOperator := None |}.

Definition handleOperator (nextOperator : string) (prevState : CalculatorState)
  : CalculatorState :=
  let inputValue := JS.parseFloat (displayValue prevState) in
  if is_string (activeOperator prevState) nextOperator
     && waitingForSecondOperand prevState
  then prevState
  else
    match firstOperand prevState with
    | None =>
        {| displayValue := displayValue prevState;
           operator := Some nextOperator;
           firstOperand := Some inputValue;
           waitingForSecondOperand := true;
           activeOperator := Some nextOperator |}
    | Some first =>
        match operator prevState with
        | Some op =>
            if truthy op then
              let result := performOperation op first inputValue in
              if negb (JS.isFinite result) then errorState
              else
                {| displayValue := JS.toString result;
                   operator := Some nextOperator;
                   firstOperand := Some result;
                   waitingForSecondOperand := true;
                   activeOperator := Some nextOperator |}
            else prevState
        | None => prevState
        end
    end.

Definition handleDecimal (prevState : CalculatorState) : CalculatorState :=
  if waitingForSecondOperand prevState then
    {| displayValue := "0.";
       operator := operator prevState;
       firstOperand := firstOperand prevState;
       waitingForSecondOperand := false;
       activeOperator := None |}
  else if negb (includes (displayValue prevState) ".") then
    {| displayValue := displayValue prevState ++ ".";
       operator := operator prevState;
       firstOperand := firstOperand prevState;
       waitingForSecondOperand := waitingForSecondOperand prevState;
       activeOperator := None |}
  else prevState.

Definition handleClear (_ : CalculatorState) : CalculatorState := initialState.

Definition handleEquals (prevState : CalculatorState) : CalculatorState :=
  match firstOperand prevState, operator prevState with
  | Some first, Some op =>
      let secondOperand := JS.parseFloat (displayValue prevState) in
      let result := performOperation op first secondOperand in
      if negb (JS.isFinite result) then errorState
      else
        {| displayValue := JS.toString result;
           operator := None;
           firstOperand := None;
           waitingForSecondOperand := false;
           activeOperator := None |}
  | _, _ =>
      {| displayValue := displayValue prevState;
         operator := operator prevState;
         firstOperand := firstOperand prevState;
         waitingForSecondOperand := waitingForSecondOperand prevState;
         activeOperator := None |}
  end.

(** The [onPress] of the [+/-] button. *)
Definition handleToggleSign (prevState : CalculatorState) : CalculatorState :=
  {| displayValue :=
       JS.toString (JS.mul (JS.parseFloat (displayValue prevState))
                           (JS.of_Z (-1)));
     operator := operator prevState;
     firstOperand := firstOperand prevState;
     waitingForSecondOperand := waitingForSecondOperand prevState;
     activeOperator := activeOperator prevState |}.

(** The [onPress] of the [%] button. *)
Definition handlePercent (prevState : CalculatorState) : CalculatorState :=
  {| displayValue :=
       JS.toString (JS.div (JS.parseFloat (displayValue prevState))
                           (JS.of_Z 100));
     operator := operator prevState;
     firstOperand := firstOperand prevState;
     waitingForSecondOperand := waitingForSecondOperand prevState;
     activeOperator := activeOperator prevState |}.

(** One button press. *)
Inductive event : Type :=
| Digit (d : digit_key)
| Decimal
| Operator (op : operator_key)
| Equals
| ToggleSign
| Percent
| Clear.

Definition step (s : CalculatorState) (ev : event) : CalculatorState :=
  match ev with
  | Digit d => handleDigit (digit_text d) s
  | Decimal => handleDecimal s
  | Operator op => handleOperator (operator_text op) s
  | Equals => handleEquals s
  | ToggleSign => handleToggleSign s
  | Percent => handlePercent s
  | Clear => handleClear s
  end.

Definition run (s : CalculatorState) (evs : list event) : CalculatorState :=
  fold_left step evs s.

(** The states the component can be in. *)
Inductive reachable : CalculatorState -> Prop :=
| reachable_initial : reachable initialState
| reachable_step s ev : reachable s -> reachable (step s ev).

(** *** Predicates the properties below are stated with *)

(** How often the character [c] occurs in [s]. *)
Fixpoint count_char (c : ascii) (s : string) : nat :=
  match s with
  | EmptyString => O
  | String a r => (if Ascii.eqb a c then 1 else 0) + count_char c r
  end.

(** The same count on a list of characters. *)
Definition occurrences (l : JS.chars) (c : ascii) : nat :=
  count_occ ascii_dec l c.

(** Is the whole text a [StrDecimalLiteral]: an optional sign, then
    [Infinity] or digits with an optional point and an optional exponent? *)
Definition exponent_part (l : JS.chars) : bool :=
  match l with
  | [] => true
  | c :: r =>
      JS.is_exp_indicator c
      && (let r' :=
            match r with
            | sg :: t => if Ascii.eqb sg "+" || Ascii.eqb sg "-" then t else r
            | [] => r
            end in
          match JS.span_digits r' with
          | (_ :: _, []) => true
          | _ => false
          end)
  end.

Definition unsigned_literal (l : JS.chars) : bool :=
  if String.eqb (string_of_list_ascii l) "Infinity" then true
  else
    let '(ip, r1) := JS.span_digits l in
    let '(fp, r2) :=
      match r1 with
      | c :: r => if Ascii.eqb c "." then JS.span_digits r else ([], r1)
      | [] => ([], r1)
      end in
    match (ip ++ fp)%list with
    | [] => false
    | _ => exponent_part r2
    end.

Definition is_numeric_literal (s : string) : bool :=
  match list_ascii_of_string s with
  | c :: r =>
      if Ascii.eqb c "+" || Ascii.eqb c "-" then unsigned_literal r
      else unsigned_literal (c :: r)
  | [] => false
  end.

(** The presses that type a number: a digit, the point, and AC. *)
Definition typing (ev : event) : bool :=
  match ev with
  | Digit _ | Decimal | Clear => true
  | _ => false
  end.

(** A text made of the characters the digit buttons and the point button
    type. *)
Fixpoint typed_characters (t : string) : bool :=
  match t with
  | EmptyString => true
  | String c r => (JS.is_digit c || Ascii.eqb c ".") && typed_characters r
  end.

(** What a handler writes on the display when it replaces it: a numeric
    literal, or one of the texts [Error] and [NaN]. *)
Definition written (t : string) : Prop :=
  is_numeric_literal t = true \/ t = "Error" \/ t = "NaN".

(** The display in general: a written text, and then the characters typed
    after it. *)
Definition display_shape (t : string) : Prop :=
  exists base typed,
    t = base ++ typed /\ written base /\ typed_characters typed = true.

(** The highlight is shown only while the second operand is awaited. *)
Definition highlight_waits (s : CalculatorState) : Prop :=
  activeOperator s <> None -> waitingForSecondOperand s = true.

(** No computation is pending. *)
Definition nothing_pending (s : CalculatorState) : Prop :=
  operator s = None /\ firstOperand s = None
  /\ waitingForSecondOperand s = false.

(** An operator was pressed on a display that is not a number. *)
Definition nan_pending (s : CalculatorState) : Prop :=
  operator s <> None /\ firstOperand s = Some JS.NaN
  /\ waitingForSecondOperand s = true.

(** A display that reads [Error] has either nothing pending or [NaN]. *)
Definition error_display_settled (s : CalculatorState) : Prop :=
  displayValue s = "Error" -> nothing_pending s \/ nan_pending s.

(** Only decimal digits. *)
Definition all_digits (l : JS.chars) : Prop :=
  Forall (fun c => JS.is_digit c = true) l.

(** A text that does not go on with a digit. *)
Definition ends_digits (r : JS.chars) : Prop :=
  match r with [] => True | c :: _ => JS.is_digit c = false end.

(** The text typed so far: digits, and perhaps a point and more digits. *)
Definition typed_number (s : CalculatorState) : Prop :=
  waitingForSecondOperand s = false
  /\ exists ip tail,
      displayValue s = string_of_list_ascii (ip ++ tail)%list
      /\ ip <> [] /\ all_digits ip
      /\ (tail = [] \/ exists fp, tail = "."%char :: fp /\ all_digits fp).

(** [digits_value], started from [a] instead of zero. *)
Definition value_from (a : Z) (l : JS.chars) : Z :=
  fold_left (fun a c => 10 * a + JS.digit_val c) l a.

(** The exponent of the last place of a binary64 of magnitude [x]. *)
Definition fexp64 (x : Z) : Z := fexp JS.prec JS.emax x.

(** A mantissa with nothing shifted out of it. *)
Definition exact_record (m : Z) : shr_record :=
  {| shr_m := m; shr_r := false; shr_s := false |}.

(** ** The rest of the component *)

(** *** The styles of the operator buttons *)

(** The entries of [styles] that the two helpers pick from. *)
Inductive style : Type :=
| operatorButton
| operatorButtonActive
| operatorButtonText
| operatorButtonTextActive.

(** An element of a style array is a style, or [false] where
    [isActive && ...] is not taken; [None] stands for [false]. *)
Definition getOperatorButtonStyles (calcState : CalculatorState) (op : string)
  : list (option style) :=
  let isActive := is_string (activeOperator calcState) op in
  [Some operatorButton; if isActive then Some operatorButtonActive else None].

Definition getOperatorButtonTextStyles (calcState : CalculatorState)
  (op : string) : list (option style) :=
  let isActive := is_string (activeOperator calcState) op in
  [Some operatorButtonText;
   if isActive then Some operatorButtonTextActive else None].

(** *** The size of the buttons *)

Module Math.

(** [Math.min] of two Numbers: [NaN] if either is, the negative zero of two
    zeros, the smaller one otherwise. *)
Definition min (x y : JS.number) : JS.number :=
  match x, y with
  | S754_nan, _ | _, S754_nan => JS.NaN
  | S754_zero sx, S754_zero sy => S754_zero (sx || sy)
  | _, _ => if SFltb y x then y else x
  end.

End Math.

(** What [Dimensions.get('window')] gives. *)
Record ScaledSize : Type := {
  width : JS.number;
  height : JS.number
}.

Definition MAX_CALC_WIDTH : JS.number := JS.of_Z 370.
Definition BUTTON_MARGIN : JS.number := JS.of_Z 2.
Definition BUTTONS_PER_ROW : JS.number := JS.of_Z 4.
Definition BUTTON_CONTAINER_PADDING : JS.number :=
  JS.mul (JS.of_Z 10) (JS.of_Z 2).

(** [dimensions.width > dimensions.height] *)
Definition isLandscape (dimensions : ScaledSize) : bool :=
  SFltb (height dimensions) (width dimensions).

(** The body of the [useMemo] that computes [buttonSize]; [0.6] is the
    binary64 nearest to 6/10. *)
Definition buttonSize (dimensions : ScaledSize) : JS.number :=
  let availableHeight :=
    JS.mul (height dimensions) (JS.round_decimal false 6 (-1)) in
  let rows := JS.of_Z 5 in
  let totalVerticalPadding := JS.mul (JS.of_Z 10) (JS.of_Z 2) in
  let totalRowSpacing := JS.mul (JS.of_Z 10) (JS.sub rows (JS.of_Z 1)) in
  let sizeByWidth :=
    JS.div
      (JS.sub (JS.sub MAX_CALC_WIDTH BUTTON_CONTAINER_PADDING)
              (JS.mul (JS.mul BUTTON_MARGIN (JS.of_Z 2)) BUTTONS_PER_ROW))
      BUTTONS_PER_ROW in
  let sizeByHeight :=
    JS.div (JS.sub (JS.sub availableHeight totalVerticalPadding)
                   totalRowSpacing)
           rows in
  Math.min sizeByWidth sizeByHeight.

Definition zeroButtonWidth (dimensions : ScaledSize) : JS.number :=
  JS.add (JS.mul (buttonSize dimensions) (JS.of_Z 2))
         (JS.mul BUTTON_MARGIN (JS.of_Z 2)).

(** *** Notions the further properties are stated with *)

(** The texts of a list of digit keys, one after the other. *)
Fixpoint digits_text (ds : list digit_key) : string :=
  match ds with
  | [] => EmptyString
  | d :: r => digit_text d ++ digits_text r
  end.

Fixpoint drop_zeros (ds : list digit_key) : list digit_key :=
  match ds with
  | D0 :: r => drop_zeros r
  | _ => ds
  end.

(** What typing the digits [ds] shows: the digits without their leading
    zeros, and [0] if nothing is left. *)
Definition typed_display (ds : list digit_key) : string :=
  match drop_zeros ds with
  | [] => "0"
  | r => digits_text r
  end.

(** The number on a digit key. *)
Definition digit_number (d : digit_key) : Z :=
  match d with
  | D0 => 0 | D1 => 1 | D2 => 2 | D3 => 3 | D4 => 4
  | D5 => 5 | D6 => 6 | D7 => 7 | D8 => 8 | D9 => 9
  end.

(** The decimal text of an integer. *)
Definition Z_text (z : Z) : string :=
  if (z <? 0)%Z
  then String "-" (string_of_list_ascii (JS.dec_digits (- z)))
  else string_of_list_ascii (JS.dec_digits z).

(** The pending operation is well formed: operator and first operand come
    together, a second operand is awaited only for a pending operation, the
    highlight is the pending operator, and the operator is the text of one of
    the four operator buttons. *)
Definition pending_well_formed (s : CalculatorState) : Prop :=
  (operator s = None <-> firstOperand s = None)
  /\ (waitingForSecondOperand s = true -> operator s <> None)
  /\ (forall op, activeOperator s = Some op -> operator s = Some op)
  /\ (forall op, operator s = Some op -> exists k, op = operator_text k).

(** The texts [String] prints for the Numbers that are not finite. *)
Definition nonfinite_text (t : string) : Prop :=
  t = "NaN" \/ t = "Infinity" \/ t = "-Infinity".

(** The two buttons that print a Number without testing it. *)
Definition sign_or_percent (ev : event) : bool :=
  match ev with
  | ToggleSign | Percent => true
  | _ => false
  end.

(** A Number in its canonical binary64 representation. *)
Definition valid (x : JS.number) : Prop :=
  valid_binary JS.prec JS.emax x = true.

(** The first operand, when there is one, is such a Number. *)
Definition first_operand_valid (s : CalculatorState) : Prop :=
  forall x, firstOperand s = Some x -> valid x.

(** [x <= y] on Numbers; false when either is [NaN]. *)
Definition number_le (x y : JS.number) : Prop := SFleb x y = true.

(* ================================================================= *)
(** * Properties *)

(** ** Strings *)

Lemma list_ascii_of_string_app (s t : string) :
  list_ascii_of_string (s ++ t)
  = (list_ascii_of_string s ++ list_ascii_of_string t)%list.
Proof.
  induction s as [|a s IH]; simpl; [reflexivity|].
  now rewrite IH.
Qed.

Lemma string_app_snoc_inv (s t : string) (a b : ascii) :
  s ++ String a EmptyString = t ++ String b EmptyString -> s = t /\ a = b.
Proof.
  intros H.
  apply (f_equal list_ascii_of_string) in H.
  rewrite !list_ascii_of_string_app in H. simpl in H.
  apply app_inj_tail in H. destruct H as [H ->]. split; [|reflexivity].
  rewrite <- (string_of_list_ascii_of_string s),
          <- (string_of_list_ascii_of_string t).
  now rewrite H.
Qed.

Lemma digit_text_single (d : digit_key) :
  exists c, digit_text d = String c EmptyString /\ JS.is_digit c = true.
Proof. destruct d; eexists; split; reflexivity. Qed.

Lemma string_app_assoc (a b c : string) : (a ++ b) ++ c = a ++ (b ++ c).
Proof. induction a as [|x a IH]; simpl; [reflexivity|]. now rewrite IH. Qed.

Lemma string_app_empty_r (a : string) : a ++ EmptyString = a.
Proof. induction a as [|x a IH]; simpl; [reflexivity|]. now rewrite IH. Qed.

(** ** The reducer *)

Lemma reachable_run (evs : list event) :
  forall s, reachable s -> reachable (run s evs).
Proof.
  induction evs as [|ev evs IH]; intros s Hs; [exact Hs|].
  apply IH. now apply reachable_step.
Qed.

Lemma reachable_from_initial (evs : list event) :
  reachable (run initialState evs).
Proof. apply reachable_run, reachable_initial. Qed.

(** A property of the identity state that every press preserves holds in
    every reachable state. *)
Section Invariants.
Variable Inv : CalculatorState -> Prop.
Hypothesis Inv_initial : Inv initialState.
Hypothesis Inv_step : forall s ev, Inv s -> Inv (step s ev).

Lemma invariant_reachable (s : CalculatorState) : reachable s -> Inv s.
Proof.
  induction 1 as [|s ev _ IH]; [exact Inv_initial|].
  now apply Inv_step.
Qed.
End Invariants.

(** The same for a property of the display alone: it is enough that the
  texts the handlers can write have it. *)
Section Display.
Variable P : string -> Prop.
Hypothesis P_zero : P "0".
Hypothesis P_digit : forall d, P (digit_text d).
Hypothesis P_append_digit : forall t d, P t -> P (t ++ digit_text d).
Hypothesis P_zero_point : P "0.".
Hypothesis P_append_point :
  forall t, P t -> includes t "." = false -> P (t ++ ".").
Hypothesis P_Error : P "Error".
Hypothesis P_number : forall x, P (JS.toString x).

Lemma step_display (s : CalculatorState) (ev : event) :
  P (displayValue s) -> P (displayValue (step s ev)).
Proof.
  intros Hs. destruct ev as [d| |op| | | |]; simpl.
  - destruct (_ || _)%bool; [apply P_digit | now apply P_append_digit].
  - unfold handleDecimal.
    destruct (waitingForSecondOperand s); simpl; [exact P_zero_point|].
    destruct (includes (displayValue s) ".") eqn:I; simpl; [exact Hs|].
    now apply P_append_point.
  - unfold handleOperator.
    destruct (_ && _)%bool; [exact Hs|].
    destruct (firstOperand s) as [first|]; [|exact Hs].
    destruct (operator s) as [o|]; [|exact Hs].
    destruct (truthy o); [|exact Hs].
    destruct (negb (JS.isFinite _)); simpl; [exact P_Error|apply P_number].
  - unfold handleEquals.
    destruct (firstOperand s) as [first|]; [|exact Hs].
    destruct (operator s) as [o|]; [|exact Hs].
    destruct (negb (JS.isFinite _)); simpl; [exact P_Error|apply P_number].
  - apply P_number.
  - apply P_number.
  - exact P_zero.
Qed.

Lemma reachable_display (s : CalculatorState) :
  reachable s -> P (displayValue s).
Proof.
  apply (invariant_reachable (fun s => P (displayValue s)));
    [exact P_zero | exact step_display].
Qed.
End Display.

Lemma step_keeps_highlight_waits (s : CalculatorState) (ev : event) :
  highlight_waits s -> highlight_waits (step s ev).
Proof.
  unfold highlight_waits. intros Hs.
  destruct ev as [d| |op| | | |]; simpl.
  - intros H. now elim H.
  - unfold handleDecimal.
    destruct (waitingForSecondOperand s) eqn:W; simpl.
    + intros H. now elim H.
    + destruct (includes (displayValue s) "."); simpl.
      * rewrite W. exact Hs.
      * intros H. now elim H.
  - unfold handleOperator.
    destruct (is_string (activeOperator s) (operator_text op)
              && waitingForSecondOperand s); [exact Hs|].
    destruct (firstOperand s) as [first|]; [|reflexivity].
    destruct (operator s) as [o|]; [|exact Hs].
    destruct (truthy o); [|exact Hs].
    destruct (negb (JS.isFinite _)); simpl; [intros H; now elim H|reflexivity].
  - unfold handleEquals.
    destruct (firstOperand s) as [first|]; [destruct (operator s) as [o|]|];
      try (simpl; intros H; now elim H).
    destruct (negb (JS.isFinite _)); simpl; intros H; now elim H.
  - exact Hs.
  - exact Hs.
  - intros H. now elim H.
Qed.

(** C10. In every state reachable from the identity state a non-null
    [activeOperator] implies [waitingForSecondOperand]; and every transition,
    from any state at all, preserves this implication. *)
Theorem active_operator_only_while_waiting :
  (forall s, reachable s -> highlight_waits s)
  /\ (forall s ev, highlight_waits s -> highlight_waits (step s ev)).
Proof.
  split; [|exact step_keeps_highlight_waits].
  apply invariant_reachable; [|exact step_keeps_highlight_waits].
  intros H. now elim H.
Qed.

Lemma active_operator_only_while_waiting_witness :
  waitingForSecondOperand (run initialState [Digit D3; Operator KAdd]) = true.
Proof.
  apply (proj1 active_operator_only_while_waiting).
  - apply reachable_from_initial.
  - vm_compute. discriminate.
Defined.

Lemma repeated_operator (s : CalculatorState) (op : operator_key) :
  activeOperator s = Some (operator_text op) ->
  waitingForSecondOperand s = true ->
  step s (Operator op) = s.
Proof.
  intros A W. simpl. unfold handleOperator.
  rewrite A, W. simpl. now rewrite String.eqb_refl.
Qed.

(** C6. Pressing the operator that is already active, while the second
    operand is still awaited, returns the state unchanged; so [3], [+], [+]
    ends in the state that [3], [+] ends in. *)
Theorem same_operator_again_is_noop :
  (forall s op,
      activeOperator s = Some (operator_text op) ->
      waitingForSecondOperand s = true ->
      step s (Operator op) = s)
  /\ run initialState [Digit D3; Operator KAdd; Operator KAdd]
     = run initialState [Digit D3; Operator KAdd].
Proof.
  split; [exact repeated_operator|].
  change (step (run initialState [Digit D3; Operator KAdd]) (Operator KAdd)
          = run initialState [Digit D3; Operator KAdd]).
  apply repeated_operator; vm_compute; reflexivity.
Qed.

Lemma same_operator_again_is_noop_witness :
  let s := run initialState [Digit D7; Operator KMul] in
  step s (Operator KMul) = s.
Proof.
  apply (proj1 same_operator_again_is_noop); vm_compute; reflexivity.
Defined.

(** C9. The [+/-] and [%] buttons change [displayValue] only. *)
Theorem toggle_sign_and_percent_frame (s : CalculatorState) :
  (operator (step s ToggleSign) = operator s
   /\ firstOperand (step s ToggleSign) = firstOperand s
   /\ waitingForSecondOperand (step s ToggleSign) = waitingForSecondOperand s
   /\ activeOperator (step s ToggleSign) = activeOperator s)
  /\ (operator (step s Percent) = operator s
      /\ firstOperand (step s Percent) = firstOperand s
      /\ waitingForSecondOperand (step s Percent) = waitingForSecondOperand s
      /\ activeOperator (step s Percent) = activeOperator s).
Proof. repeat split. Qed.

(** C4. Chained operators are evaluated eagerly from left to right:
    [2 + 3 * 4 =] shows [20], which is [(2+3)*4], and not [14]. *)
Theorem chained_operators_left_to_right :
  displayValue
    (run initialState
       [Digit D2; Operator KAdd; Digit D3; Operator KMul; Digit D4; Equals])
  = "20"
  /\ displayValue (run initialState [Digit D2; Operator KAdd; Digit D3;
                                     Operator KMul])
     = "5"
  /\ JS.toString (JS.add (JS.of_Z 2) (JS.mul (JS.of_Z 3) (JS.of_Z 4))) = "14".
Proof. repeat split; vm_compute; reflexivity. Qed.

Lemma divide_by_zero (a b : JS.number) :
  JS.strict_eq b (JS.of_Z 0) = true -> performOperation "/" a b = JS.Infinity.
Proof.
  intros H. unfold performOperation.
  change ("/" =? "+") with false. change ("/" =? "-") with false.
  change ("/" =? "*") with false. change ("/" =? "/") with true.
  cbv iota. now rewrite H.
Qed.

(** C5. Dividing by zero gives positive infinity whatever the dividend, and
    [5 / 0 =] ends in the Error state, with no operator and no first operand
    left. *)
Theorem division_by_zero_is_error :
  (forall (a : JS.number) (negative_zero : bool),
      performOperation (operator_text KDiv) a (S754_zero negative_zero)
      = S754_infinity false)
  /\ run initialState [Digit D5; Operator KDiv; Digit D0; Equals] = errorState
  /\ displayValue errorState = "Error"
  /\ operator errorState = None
  /\ firstOperand errorState = None.
Proof.
  split.
  - intros a z. apply divide_by_zero. now destruct z.
  - split; [vm_compute; reflexivity | repeat split].
Qed.

(** ** Digits pressed on the Error display *)

(** C2, as stated, fails: [5] pressed in the Error state shows [Error5]. *)
Lemma digit_on_error_counterexample :
  reachable errorState
  /\ displayValue (step errorState (Digit D5)) = "Error5"
  /\ ~ (forall (d : digit_key) (s : CalculatorState),
          displayValue s = "Error" ->
          operator s = None -> firstOperand s = None ->
          displayValue (step s (Digit d)) = digit_text d).
Proof.
  split; [|split].
  - exact (reachable_from_initial [Digit D5; Operator KDiv; Digit D0; Equals]).
  - reflexivity.
  - intros H. specialize (H D5 errorState eq_refl eq_refl eq_refl).
    discriminate H.
Qed.

(** C2, amended. A digit pressed while the display is [Error] is appended to
    it, unless a second operand is awaited (an operator was pressed on the
    Error display): only then does the digit start a fresh number. *)
Theorem digit_on_error_appends (d : digit_key) (s : CalculatorState) :
  displayValue s = "Error" ->
  displayValue (step s (Digit d))
  = if waitingForSecondOperand s then digit_text d
    else "Error" ++ digit_text d.
Proof.
  intros E. simpl. rewrite E. now destruct (waitingForSecondOperand s).
Qed.

Lemma digit_on_error_appends_witness :
  displayValue (step errorState (Digit D5)) = "Error5".
Proof.
  exact (digit_on_error_appends D5 errorState eq_refl).
Defined.

(** ** The shape of [String(x)] *)

Lemma digit_char_is_digit (d : Z) :
  0 <= d < 10 -> JS.is_digit (JS.digit_char d) = true.
Proof.
  intros H.
  assert (C : d = 0 \/ d = 1 \/ d = 2 \/ d = 3 \/ d = 4 \/ d = 5 \/ d = 6
              \/ d = 7 \/ d = 8 \/ d = 9) by lia.
  repeat (destruct C as [->|C]; [reflexivity|]). now subst d.
Qed.

Lemma digit_val_char (d : Z) :
  0 <= d < 10 -> JS.digit_val (JS.digit_char d) = d.
Proof.
  intros H.
  assert (C : d = 0 \/ d = 1 \/ d = 2 \/ d = 3 \/ d = 4 \/ d = 5 \/ d = 6
              \/ d = 7 \/ d = 8 \/ d = 9) by lia.
  repeat (destruct C as [->|C]; [reflexivity|]). now subst d.
Qed.

Lemma dec_digits_aux_shape (fuel : nat) :
  forall n acc, exists l,
    JS.dec_digits_aux fuel n acc = (l ++ acc)%list
    /\ all_digits l /\ (fuel <> O -> l <> []).
Proof.
  induction fuel as [|f IH]; intros n acc; simpl.
  - exists []. repeat split; [constructor | congruence].
  - assert (D : JS.is_digit (JS.digit_char (n mod 10)) = true)
      by (apply digit_char_is_digit, Z.mod_pos_bound; lia).
    destruct (n <? 10)%Z.
    + exists [JS.digit_char (n mod 10)]. repeat split.
      * now constructor.
      * discriminate.
    + destruct (IH (n / 10) (JS.digit_char (n mod 10) :: acc))
        as (l & E & Hl & _).
      exists (l ++ [JS.digit_char (n mod 10)])%list. repeat split.
      * now rewrite E, <- app_assoc.
      * apply Forall_app. split; [exact Hl | now constructor].
      * intros _ Hnil. now apply app_eq_nil in Hnil.
Qed.

Lemma dec_digits_all_digits (n : Z) : all_digits (JS.dec_digits n).
Proof.
  unfold JS.dec_digits.
  destruct (dec_digits_aux_shape (S (Z.to_nat (Z.log2 n))) n [])
    as (l & E & Hl & _).
  now rewrite E, app_nil_r.
Qed.

Lemma dec_digits_not_nil (n : Z) : JS.dec_digits n <> [].
Proof.
  unfold JS.dec_digits.
  destruct (dec_digits_aux_shape (S (Z.to_nat (Z.log2 n))) n [])
    as (l & E & _ & Hl).
  rewrite E, app_nil_r. now apply Hl.
Qed.

Create HintDb digits.
#[local] Hint Resolve dec_digits_all_digits dec_digits_not_nil : digits.
#[local] Hint Extern 1 (all_digits (_ :: _)) => constructor : digits.
#[local] Hint Extern 1 (all_digits []) => constructor : digits.

Lemma count_char_of_list (c : ascii) (l : JS.chars) :
  count_char c (string_of_list_ascii l) = occurrences l c.
Proof.
  unfold occurrences.
  induction l as [|a l IH]; simpl; [reflexivity|].
  rewrite IH. destruct (Ascii.eqb_spec a c), (ascii_dec a c);
    congruence || reflexivity.
Qed.

Lemma count_char_app (c : ascii) (s t : string) :
  count_char c (s ++ t) = (count_char c s + count_char c t)%nat.
Proof.
  induction s as [|a s IH]; simpl; [reflexivity|]. rewrite IH. lia.
Qed.

Lemma includes_count (s : string) (c : ascii) :
  includes s c = false <-> count_char c s = O.
Proof.
  induction s as [|a s IH]; simpl; [tauto|].
  destruct (Ascii.eqb a c); simpl; [split; discriminate | exact IH].
Qed.

Lemma digits_without (l : JS.chars) (c : ascii) :
  all_digits l -> JS.is_digit c = false -> occurrences l c = O.
Proof.
  unfold occurrences.
  intros Hl Hc. induction Hl as [|a l Ha _ IH]; [reflexivity|].
  rewrite count_occ_cons_neq; [exact IH | congruence].
Qed.

Lemma format_decimal_head (ds : JS.chars) (n : Z) :
  all_digits ds -> ds <> [] ->
  exists c r, JS.format_decimal ds n = c :: r /\ JS.is_digit c = true.
Proof.
  intros Hds Hne. destruct ds as [|d rest]; [congruence|].
  inversion_clear Hds as [|? ? Hd Hrest].
  unfold JS.format_decimal.
  destruct ((-5 <=? n) && (n <=? 21))%Z.
  - destruct (_ <=? n)%Z; [now exists d; eexists|].
    destruct (0 <? n)%Z eqn:N; [|now eexists; eexists].
    apply Z.ltb_lt in N.
    destruct (Z.to_nat n) as [|j] eqn:J; [lia|].
    now exists d; eexists.
  - destruct rest; now exists d; eexists.
Qed.

Lemma format_decimal_points (ds : JS.chars) (n : Z) :
  all_digits ds -> (occurrences (JS.format_decimal ds n) "." <= 1)%nat.
Proof.
  intros Hds.
  assert (D0 : occurrences ds "." = O) by now apply digits_without.
  assert (Z0 : forall j, occurrences (repeat "0"%char j) "." = O)
    by (intros j; now apply count_occ_repeat_neq).
  assert (E0 : forall e b, occurrences
              ("e"%char :: (if b : bool then "-"%char else "+"%char)
                        :: JS.dec_digits e) "." = O).
  { intros e b. unfold occurrences.
    rewrite !count_occ_cons_neq; [|now destruct b|discriminate].
    apply digits_without; auto with digits. }
  unfold occurrences in *.
  unfold JS.format_decimal.
  destruct ((-5 <=? n) && (n <=? 21))%Z.
  - destruct (_ <=? n)%Z.
    + rewrite count_occ_app, D0, Z0. lia.
    + destruct (0 <? n)%Z.
      * rewrite count_occ_elt_eq, firstn_skipn, D0 by reflexivity. lia.
      * rewrite count_occ_cons_neq, count_occ_cons_eq, count_occ_app, Z0, D0
          by (reflexivity || discriminate). lia.
  - destruct ds as [|d rest]; [rewrite E0; lia|].
    inversion_clear Hds as [|? ? Hd Hrest].
    assert (Dd : d <> "."%char) by (intros ->; discriminate).
    destruct rest as [|d' rest'].
    + rewrite count_occ_cons_neq, E0 by exact Dd. lia.
    + rewrite count_occ_cons_neq, count_occ_cons_eq, count_occ_app, E0
        by (reflexivity || exact Dd).
      pose proof (digits_without _ "." Hrest eq_refl) as R.
      unfold occurrences in R. rewrite R. lia.
Qed.

(** [String(x)] starts with a digit, a minus sign, [N] or [I]. *)
Lemma toString_head (x : JS.number) :
  exists c r, JS.toString_chars x = c :: r
              /\ (JS.is_digit c = true \/ c = "-"%char
                  \/ c = "N"%char \/ c = "I"%char).
Proof.
  destruct x as [z|neg| |neg m e]; simpl.
  - eexists; eexists; split; [reflexivity|now left].
  - destruct neg; eexists; eexists; (split; [reflexivity|]); tauto.
  - eexists; eexists; split; [reflexivity|]; tauto.
  - destruct (JS.shortest_decimal m e) as [s n].
    destruct (format_decimal_head (JS.dec_digits s) n) as (c & r & E & D);
      auto with digits.
    rewrite E. destruct neg; eexists; eexists; (split; [reflexivity|]); tauto.
Qed.

Lemma toString_not_empty (x : JS.number) : JS.toString x <> EmptyString.
Proof.
  unfold JS.toString. destruct (toString_head x) as (c & r & -> & _).
  discriminate.
Qed.

Lemma toString_not_Error (x : JS.number) : JS.toString x <> "Error".
Proof.
  unfold JS.toString. destruct (toString_head x) as (c & r & -> & H).
  simpl. intros E. injection E as -> _.
  destruct H as [H|[H|[H|H]]]; discriminate H.
Qed.

Lemma toString_points (x : JS.number) :
  (count_char "." (JS.toString x) <= 1)%nat.
Proof.
  unfold JS.toString. rewrite count_char_of_list. unfold occurrences.
  destruct x as [z|neg| |neg m e]; simpl.
  - lia.
  - destruct neg; simpl; lia.
  - lia.
  - destruct (JS.shortest_decimal m e) as [s n].
    assert (P : (occurrences (JS.format_decimal (JS.dec_digits s) n) "."
                 <= 1)%nat)
      by (apply format_decimal_points; auto with digits).
    unfold occurrences in P.
    destruct neg; simpl; [|exact P].
    destruct (ascii_dec "-" "."); [discriminate|exact P].
Qed.

(** ** The Error display *)

Lemma digit_text_not_Error (d : digit_key) : digit_text d <> "Error".
Proof. destruct d; discriminate. Qed.

Lemma append_digit_not_Error (t : string) (d : digit_key) :
  t ++ digit_text d <> "Error".
Proof.
  destruct (digit_text_single d) as (c & -> & Hc). intros E.
  apply (string_app_snoc_inv t "Erro" c "r") in E.
  destruct E as [_ ->]. discriminate Hc.
Qed.

Lemma append_point_not_Error (t : string) : t ++ "." <> "Error".
Proof.
  intros E. apply (string_app_snoc_inv t "Erro" "." "r") in E.
  destruct E as [_ E]. discriminate E.
Qed.

Lemma step_keeps_error_display_settled (s : CalculatorState) (ev : event) :
  error_display_settled s -> error_display_settled (step s ev).
Proof.
  unfold error_display_settled. intros Hs.
  destruct ev as [d| |op| | | |]; simpl.
  - unfold handleDigit; simpl. intros E. exfalso.
    destruct (_ || _)%bool.
    + now apply digit_text_not_Error in E.
    + now apply append_digit_not_Error in E.
  - unfold handleDecimal.
    destruct (waitingForSecondOperand s); simpl; [discriminate|].
    destruct (includes (displayValue s) "."); simpl; [exact Hs|].
    intros E. now apply append_point_not_Error in E.
  - unfold handleOperator.
    destruct (_ && _)%bool; [exact Hs|].
    destruct (firstOperand s) as [first|] eqn:F.
    + destruct (operator s) as [o|]; [|exact Hs].
      destruct (truthy o); [|exact Hs].
      destruct (negb (JS.isFinite _)); simpl.
      * intros _. left. repeat split.
      * intros E. now apply toString_not_Error in E.
    + simpl. intros E. right. rewrite E. repeat split. discriminate.
  - unfold handleEquals.
    destruct (firstOperand s) as [first|] eqn:F.
    + destruct (operator s) as [o|] eqn:O.
      * destruct (negb (JS.isFinite _)); simpl.
        -- intros _. left. repeat split.
        -- intros E. now apply toString_not_Error in E.
      * simpl. intros E. destruct (Hs E) as [(_ & F' & _)|(O' & _)];
          congruence.
    + simpl. intros E. destruct (Hs E) as [(O' & _ & W)|(_ & F' & _)];
        [|congruence].
      left. repeat split; assumption.
  - intros E. now apply toString_not_Error in E.
  - intros E. now apply toString_not_Error in E.
  - discriminate.
Qed.

(** A press that turns the display into [Error] gives the Error state. *)
Lemma entering_error_display (s : CalculatorState) (ev : event) :
  displayValue s <> "Error" -> displayValue (step s ev) = "Error" ->
  step s ev = errorState.
Proof.
  intros Hs. destruct ev as [d| |op| | | |]; simpl.
  - unfold handleDigit; simpl. intros E. exfalso.
    destruct (_ || _)%bool.
    + now apply digit_text_not_Error in E.
    + now apply append_digit_not_Error in E.
  - unfold handleDecimal.
    destruct (waitingForSecondOperand s); simpl; [discriminate|].
    destruct (includes (displayValue s) "."); simpl; [contradiction|].
    intros E. now apply append_point_not_Error in E.
  - unfold handleOperator.
    destruct (_ && _)%bool; [contradiction|].
    destruct (firstOperand s) as [first|]; [|contradiction].
    destruct (operator s) as [o|]; [|contradiction].
    destruct (truthy o); [|contradiction].
    destruct (negb (JS.isFinite _)); simpl; [reflexivity|].
    intros E. now apply toString_not_Error in E.
  - unfold handleEquals.
    destruct (firstOperand s) as [first|]; [|contradiction].
    destruct (operator s) as [o|]; [|contradiction].
    destruct (negb (JS.isFinite _)); simpl; [reflexivity|].
    intros E. now apply toString_not_Error in E.
  - intros E. now apply toString_not_Error in E.
  - intros E. now apply toString_not_Error in E.
  - discriminate.
Qed.

(** C1, as stated, fails: an operator pressed in the Error state keeps the
    display [Error] and records [NaN] as first operand. *)
Lemma error_state_counterexample :
  let s := run initialState
             [Digit D5; Operator KDiv; Digit D0; Equals; Operator KAdd] in
  reachable s
  /\ s = step errorState (Operator KAdd)
  /\ displayValue s = "Error"
  /\ operator s = Some "+"
  /\ firstOperand s = Some JS.NaN
  /\ waitingForSecondOperand s = true
  /\ ~ (forall s', reachable s' -> displayValue s' = "Error" ->
                   nothing_pending s').
Proof.
  split; [apply reachable_from_initial|].
  do 5 (split; [vm_compute; reflexivity|]).
  intros H.
  destruct (H _ (reachable_from_initial
                   [Digit D5; Operator KDiv; Digit D0; Equals; Operator KAdd])
              eq_refl) as (O & _).
  discriminate O.
Qed.

(** C1, amended. A press that turns the display into [Error] leaves the
    Error state, in which nothing is pending.  In the Error state every press
    but an operator leaves nothing pending, and an operator keeps the display
    and stores [NaN] as first operand.  So in a reachable state that shows
    [Error] either nothing is pending, or an operator was pressed on the Error
    display and [NaN] is the first operand. *)
Theorem error_display_invariant :
  (forall s, reachable s ->
     displayValue s = "Error" -> nothing_pending s \/ nan_pending s)
  /\ (forall s ev,
        displayValue s <> "Error" -> displayValue (step s ev) = "Error" ->
        step s ev = errorState /\ nothing_pending (step s ev))
  /\ (forall ev, (forall op, ev <> Operator op) ->
        nothing_pending (step errorState ev))
  /\ (forall op,
        step errorState (Operator op)
        = {| displayValue := "Error";
             operator := Some (operator_text op);
             firstOperand := Some JS.NaN;
             waitingForSecondOperand := true;
             activeOperator := Some (operator_text op) |}).
Proof.
  split; [|split; [|split]].
  - apply (invariant_reachable error_display_settled);
      [discriminate | exact step_keeps_error_display_settled].
  - intros s ev Hs E. rewrite (entering_error_display s ev Hs E).
    repeat split.
  - intros [d| |op| | | |] H; try (repeat split; fail).
    now elim (H op).
  - intros []; reflexivity.
Qed.

Lemma error_display_invariant_witness :
  let s := run initialState
             [Digit D5; Operator KDiv; Digit D0; Equals; Operator KAdd] in
  nothing_pending s \/ nan_pending s.
Proof.
  apply (proj1 error_display_invariant).
  - apply reachable_from_initial.
  - vm_compute. reflexivity.
Defined.

(** ** Decimal points *)

Lemma digit_text_points (d : digit_key) : count_char "." (digit_text d) = O.
Proof. now destruct d. Qed.

Lemma reachable_one_point (s : CalculatorState) :
  reachable s -> (count_char "." (displayValue s) <= 1)%nat.
Proof.
  apply (reachable_display (fun t => (count_char "." t <= 1)%nat)).
  - simpl. lia.
  - intros d. rewrite digit_text_points. lia.
  - intros t d Ht. rewrite count_char_app, digit_text_points. lia.
  - simpl. lia.
  - intros t Ht I. apply includes_count in I.
    rewrite count_char_app, I. simpl. lia.
  - simpl. lia.
  - exact toString_points.
Qed.

Lemma decimal_twice (s : CalculatorState) :
  step (step s Decimal) Decimal = step s Decimal.
Proof.
  assert (I' : includes (displayValue s ++ ".") "." = true).
  { clear. induction (displayValue s) as [|a t IH]; simpl; [reflexivity|].
    rewrite IH. apply orb_true_r. }
  simpl. unfold handleDecimal.
  destruct (waitingForSecondOperand s) eqn:W; [reflexivity|].
  destruct (includes (displayValue s) ".") eqn:I; simpl.
  - now rewrite W, I.
  - now rewrite ?W, I'.
Qed.

(** C7. Pressing the point twice is the same as pressing it once, in every
    state; and in every reachable state (indeed whenever the display holds at
    most one point) the display then holds exactly one point. *)
Theorem decimal_idempotent :
  (forall s, step (step s Decimal) Decimal = step s Decimal)
  /\ (forall s, (count_char "." (displayValue s) <= 1)%nat ->
        count_char "." (displayValue (step (step s Decimal) Decimal)) = 1%nat)
  /\ (forall s, reachable s ->
        count_char "." (displayValue (step (step s Decimal) Decimal)) = 1%nat).
Proof.
  assert (P : forall s, (count_char "." (displayValue s) <= 1)%nat ->
     count_char "." (displayValue (step (step s Decimal) Decimal)) = 1%nat).
  { intros s Hs. rewrite decimal_twice. simpl. unfold handleDecimal.
    destruct (waitingForSecondOperand s); [reflexivity|].
    destruct (includes (displayValue s) ".") eqn:I; simpl.
    - destruct (count_char "." (displayValue s)) as [|[|k]] eqn:C;
        [|reflexivity|lia].
      apply includes_count in C. congruence.
    - apply includes_count in I. rewrite count_char_app, I. reflexivity. }
  split; [exact decimal_twice|]. split; [exact P|].
  intros s Hs. apply P. now apply reachable_one_point.
Qed.

Lemma decimal_idempotent_witness :
  count_char "."
    (displayValue (run initialState [Digit D3; Decimal; Decimal])) = 1%nat.
Proof.
  apply (proj2 (proj2 decimal_idempotent)
           (run initialState [Digit D3])).
  apply reachable_from_initial.
Defined.

(** ** What the display can hold *)

Lemma string_of_list_ascii_app (l1 l2 : JS.chars) :
  string_of_list_ascii (l1 ++ l2)%list
  = string_of_list_ascii l1 ++ string_of_list_ascii l2.
Proof.
  induction l1 as [|a l1 IH]; simpl; [reflexivity|]. now rewrite IH.
Qed.

Lemma append_not_empty (s t : string) : t <> EmptyString -> s ++ t <> EmptyString.
Proof.
  intros Ht E. destruct s; simpl in E; [contradiction|discriminate].
Qed.

Lemma digit_text_not_empty (d : digit_key) : digit_text d <> EmptyString.
Proof. destruct d; discriminate. Qed.

Lemma reachable_display_not_empty (s : CalculatorState) :
  reachable s -> displayValue s <> EmptyString.
Proof.
  apply (reachable_display (fun t => t <> EmptyString)); try discriminate.
  - exact digit_text_not_empty.
  - intros t d _. apply append_not_empty, digit_text_not_empty.
  - intros t _ _. now apply append_not_empty.
  - exact toString_not_empty.
Qed.

Lemma span_digits_app (ds rest : JS.chars) :
  all_digits ds ->
  match rest with [] => True | c :: _ => JS.is_digit c = false end ->
  JS.span_digits (ds ++ rest)%list = (ds, rest).
Proof.
  intros Hds Hrest. induction Hds as [|a ds Ha _ IH]; simpl.
  - destruct rest as [|c r]; [reflexivity|]. simpl. now rewrite Hrest.
  - now rewrite Ha, IH.
Qed.

Lemma span_digits_all (ds : JS.chars) :
  all_digits ds -> JS.span_digits ds = (ds, []).
Proof.
  intros H. rewrite <- (app_nil_r ds) at 1. now apply span_digits_app.
Qed.

Lemma typed_number_is_literal (s : CalculatorState) :
  typed_number s -> is_numeric_literal (displayValue s) = true.
Proof.
  intros (_ & ip & tail & E & Hne & Hip & Htail).
  unfold is_numeric_literal.
  rewrite E, list_ascii_of_string_of_list_ascii.
  destruct ip as [|c ip']; [congruence|]. simpl app.
  inversion Hip as [|? ? Hc Hip']; subst.
  assert (S1 : (Ascii.eqb c "+" || Ascii.eqb c "-")%bool = false).
  { destruct (Ascii.eqb_spec c "+") as [->|_]; [discriminate Hc|].
    destruct (Ascii.eqb_spec c "-") as [->|_]; [discriminate Hc|].
    reflexivity. }
  rewrite S1. unfold unsigned_literal.
  destruct (String.eqb _ "Infinity"); [reflexivity|].
  change (c :: ip' ++ tail)%list with ((c :: ip') ++ tail)%list.
  destruct Htail as [->|(fp & -> & Hfp)].
  - rewrite app_nil_r, span_digits_all by exact Hip. reflexivity.
  - rewrite span_digits_app by (exact Hip || reflexivity).
    simpl. rewrite span_digits_all by exact Hfp. reflexivity.
Qed.

Lemma typing_keeps_typed_number (s : CalculatorState) (ev : event) :
  typing ev = true -> typed_number s -> typed_number (step s ev).
Proof.
  intros Hev (W & ip & tail & E & Hne & Hip & Htail).
  destruct ev as [d| |op| | | |]; try discriminate Hev; simpl.
  - split; [reflexivity|]. simpl. rewrite W. simpl.
    destruct (digit_text_single d) as (c & -> & Hc).
    destruct (String.eqb (displayValue s) "0").
    + exists [c], []. repeat split; [discriminate|now constructor|now left].
    + rewrite E.
      change (String c EmptyString) with (string_of_list_ascii [c]).
      rewrite <- string_of_list_ascii_app, <- app_assoc.
      destruct Htail as [->|(fp & -> & Hfp)].
      * exists (ip ++ [c])%list, []. rewrite app_nil_r. repeat split.
        -- intros N. now apply app_eq_nil in N.
        -- apply Forall_app. split; [exact Hip|now constructor].
        -- now left.
      * exists ip, ("."%char :: fp ++ [c])%list. repeat split; try assumption.
        right. exists (fp ++ [c])%list. split; [reflexivity|].
        apply Forall_app. split; [exact Hfp|now constructor].
  - unfold handleDecimal. rewrite W.
    destruct (includes (displayValue s) ".") eqn:I; simpl.
    + split; [exact W|]. exists ip, tail. repeat split; assumption.
    + split; [reflexivity|]. simpl. rewrite E.
      change "." with (string_of_list_ascii ["."%char]).
      rewrite <- string_of_list_ascii_app, <- app_assoc.
      destruct Htail as [->|(fp & -> & Hfp)].
      * exists ip, ["."%char]. repeat split; try assumption.
        right. exists []. split; [reflexivity|constructor].
      * exfalso. apply includes_count in I.
        rewrite E, count_char_of_list in I. unfold occurrences in I.
        rewrite count_occ_app, count_occ_cons_eq in I by reflexivity. lia.
  - split; [reflexivity|]. exists ["0"%char], []. repeat split.
    + discriminate.
    + now constructor.
    + now left.
Qed.

Lemma typing_run_typed_number (evs : list event) :
  forall s, forallb typing evs = true -> typed_number s ->
            typed_number (run s evs).
Proof.
  induction evs as [|ev evs IH]; intros s Hevs Hs; [exact Hs|].
  simpl in Hevs. apply andb_true_iff in Hevs. destruct Hevs as [Hev Hevs].
  apply IH; [exact Hevs|]. now apply typing_keeps_typed_number.
Qed.

(** C3, as stated, fails: after [5 / 0 =] a digit gives [Error5] and the
    sign button gives [NaN]; neither starts with a numeric literal. *)
Lemma display_counterexample :
  let error := [Digit D5; Operator KDiv; Digit D0; Equals] in
  displayValue (run initialState (error ++ [Digit D5])%list) = "Error5"
  /\ displayValue (run initialState (error ++ [ToggleSign])%list) = "NaN"
  /\ is_numeric_literal "Error5" = false
  /\ is_numeric_literal "NaN" = false
  /\ ~ (forall s, reachable s ->
          is_numeric_literal (displayValue s) = true
          \/ displayValue s = "Error" \/ displayValue s = "0").
Proof.
  repeat split; try (vm_compute; reflexivity).
  intros H.
  destruct (H _ (reachable_from_initial
                   [Digit D5; Operator KDiv; Digit D0; Equals; Digit D5]))
    as [N|[N|N]]; vm_compute in N; discriminate N.
Qed.

(** *** What [String] prints is a numeric literal *)

Lemma exponent_part_printed (e : Z) :
  exponent_part ("e"%char :: (if (e <? 0)%Z then "-"%char else "+"%char)
                   :: JS.dec_digits (Z.abs e)) = true.
Proof.
  pose proof (span_digits_all _ (dec_digits_all_digits (Z.abs e))) as Sp.
  pose proof (dec_digits_not_nil (Z.abs e)) as Hne.
  unfold exponent_part. change (JS.is_exp_indicator "e") with true.
  cbn [andb].
  destruct (e <? 0)%Z.
  - change (Ascii.eqb "-" "+" || Ascii.eqb "-" "-")%bool with true.
    cbv iota. rewrite Sp.
    destruct (JS.dec_digits (Z.abs e)); [congruence|reflexivity].
  - change (Ascii.eqb "+" "+" || Ascii.eqb "+" "-")%bool with true.
    cbv iota. rewrite Sp.
    destruct (JS.dec_digits (Z.abs e)); [congruence|reflexivity].
Qed.

Lemma unsigned_literal_point (ip fp r2 : JS.chars) :
  all_digits ip -> all_digits fp -> ends_digits r2 ->
  (ip ++ fp)%list <> [] -> exponent_part r2 = true ->
  unsigned_literal (ip ++ "."%char :: fp ++ r2)%list = true.
Proof.
  intros Hip Hfp Hr Hne He. unfold unsigned_literal.
  destruct (String.eqb _ "Infinity"); [reflexivity|].
  rewrite span_digits_app by (exact Hip || reflexivity).
  rewrite Ascii.eqb_refl, span_digits_app by assumption.
  destruct (ip ++ fp)%list; [congruence|exact He].
Qed.

(** Digits, and a rest that starts neither with a digit nor with a point. *)
Lemma unsigned_literal_integer (ip r2 : JS.chars) :
  all_digits ip -> ip <> [] ->
  match r2 with
  | [] => True
  | c :: _ => JS.is_digit c = false /\ c <> "."%char
  end ->
  exponent_part r2 = true ->
  unsigned_literal (ip ++ r2)%list = true.
Proof.
  intros Hip Hne Hr He. unfold unsigned_literal.
  destruct (String.eqb _ "Infinity"); [reflexivity|].
  rewrite span_digits_app; [|exact Hip|destruct r2; tauto].
  assert (T : match r2 with
              | [] => ([], r2)
              | c0 :: r => if Ascii.eqb c0 "." then JS.span_digits r
                           else ([], r2)
              end = (@nil ascii, r2)).
  { destruct r2 as [|c0 r]; [reflexivity|]. destruct Hr as [_ Hr].
    destruct (Ascii.eqb_spec c0 "."); [contradiction|reflexivity]. }
  rewrite T, app_nil_r. destruct ip; [congruence|exact He].
Qed.

Lemma format_decimal_literal (ds : JS.chars) (n : Z) :
  all_digits ds -> ds <> [] ->
  unsigned_literal (JS.format_decimal ds n) = true.
Proof.
  intros Hds Hne. unfold JS.format_decimal.
  destruct ((-5 <=? n) && (n <=? 21))%Z.
  - destruct (Z.of_nat (List.length ds) <=? n)%Z.
    + (* digits and zeros *)
      rewrite <- (app_nil_r (ds ++ repeat "0"%char _)%list).
      apply unsigned_literal_integer.
      * apply Forall_app. split; [exact Hds|].
        apply Forall_forall. intros c Hc. apply repeat_spec in Hc. now subst c.
      * intros N. apply app_eq_nil in N. tauto.
      * exact I.
      * reflexivity.
    + destruct (0 <? n)%Z.
      * (* a point inside the digits *)
        pose proof (firstn_skipn (Z.to_nat n) ds) as FS.
        assert (Hf : all_digits (firstn (Z.to_nat n) ds)
                     /\ all_digits (skipn (Z.to_nat n) ds)).
        { apply Forall_app. unfold all_digits in Hds. now rewrite FS. }
        destruct Hf as [Hf Hs].
        rewrite <- (app_nil_r (skipn (Z.to_nat n) ds)) at 1.
        apply unsigned_literal_point; try assumption.
        -- exact I.
        -- now rewrite FS.
        -- reflexivity.
      * (* zeros between the point and the digits *)
        change ("0"%char :: "."%char :: repeat "0"%char (Z.to_nat (- n)) ++ ds)%list
          with (["0"%char] ++ "."%char
                  :: repeat "0"%char (Z.to_nat (- n)) ++ ds)%list.
        rewrite <- (app_nil_r (repeat "0"%char (Z.to_nat (- n)) ++ ds)%list).
        apply unsigned_literal_point.
        -- now constructor.
        -- apply Forall_app. split; [|exact Hds].
           apply Forall_forall. intros c Hc. apply repeat_spec in Hc.
           now subst c.
        -- exact I.
        -- discriminate.
        -- reflexivity.
  - destruct ds as [|d rest]; [congruence|].
    inversion Hds as [|? ? Hd Hrest]; subst.
    destruct rest as [|d' rest'].
    + (* one digit and an exponent *)
      change (d :: ?r)%list with ([d] ++ r)%list.
      apply unsigned_literal_integer.
      * now constructor.
      * discriminate.
      * split; [reflexivity|discriminate].
      * apply exponent_part_printed.
    + (* a digit, a point, digits and an exponent *)
      change (d :: "."%char :: ?r)%list with ([d] ++ "."%char :: r)%list.
      apply unsigned_literal_point.
      * now constructor.
      * exact Hrest.
      * reflexivity.
      * discriminate.
      * apply exponent_part_printed.
Qed.

(** Every Number but [NaN] is printed as a numeric literal. *)
Lemma toString_literal (x : JS.number) :
  x <> JS.NaN -> is_numeric_literal (JS.toString x) = true.
Proof.
  intros Hx. unfold is_numeric_literal, JS.toString.
  rewrite list_ascii_of_string_of_list_ascii.
  destruct x as [z|neg| |neg m e];
    [reflexivity|destruct neg; reflexivity|now contradiction Hx|].
  cbn [JS.toString_chars]. destruct (JS.shortest_decimal m e) as [sd n].
  pose proof (format_decimal_literal (JS.dec_digits sd) n
                (dec_digits_all_digits sd) (dec_digits_not_nil sd)) as L.
  destruct neg; cbn [app]; [exact L|].
  destruct (format_decimal_head (JS.dec_digits sd) n
              (dec_digits_all_digits sd) (dec_digits_not_nil sd))
    as (c & r & E & D).
  rewrite E in *.
  destruct (Ascii.eqb_spec c "+") as [->|_]; [discriminate D|].
  destruct (Ascii.eqb_spec c "-") as [->|_]; [discriminate D|].
  exact L.
Qed.

Lemma finite_not_NaN (x : JS.number) : JS.isFinite x = true -> x <> JS.NaN.
Proof. intros F ->. discriminate F. Qed.

Lemma toString_written (x : JS.number) : written (JS.toString x).
Proof.
  destruct x as [z|neg| |neg m e];
    try (left; apply toString_literal; discriminate).
  right. right. reflexivity.
Qed.

(** *** The display in general *)

Lemma typed_characters_app (s t : string) :
  typed_characters (s ++ t) = (typed_characters s && typed_characters t)%bool.
Proof.
  induction s as [|c s IH]; simpl; [reflexivity|].
  now rewrite IH, andb_assoc.
Qed.

Lemma digit_text_typed (d : digit_key) : typed_characters (digit_text d) = true.
Proof. destruct d; reflexivity. Qed.

Lemma digit_text_literal (d : digit_key) :
  is_numeric_literal (digit_text d) = true.
Proof. destruct d; reflexivity. Qed.

Lemma written_display_shape (t : string) : written t -> display_shape t.
Proof.
  intros W. exists t, EmptyString.
  rewrite string_app_empty_r. repeat split. exact W.
Qed.

Lemma display_shape_typed (t u : string) :
  display_shape t -> typed_characters u = true -> display_shape (t ++ u).
Proof.
  intros (base & typed & -> & W & T) U. exists base, (typed ++ u).
  rewrite string_app_assoc, typed_characters_app, T, U. repeat split. exact W.
Qed.

Lemma reachable_display_shape (s : CalculatorState) :
  reachable s -> display_shape (displayValue s).
Proof.
  apply (reachable_display display_shape).
  - apply written_display_shape. now left.
  - intros d. apply written_display_shape. left. apply digit_text_literal.
  - intros t d Ht. apply display_shape_typed; [exact Ht|apply digit_text_typed].
  - apply written_display_shape. now left.
  - intros t Ht _. now apply display_shape_typed.
  - apply written_display_shape. right. now left.
  - intros x. apply written_display_shape, toString_written.
Qed.

(** What the operator buttons and [=] do to the display: nothing, or they
    write [Error] or a numeric literal. *)
Lemma result_display (s : CalculatorState) (ev : event) :
  (exists op, ev = Operator op) \/ ev = Equals ->
  displayValue (step s ev) = displayValue s
  \/ displayValue (step s ev) = "Error"
  \/ is_numeric_literal (displayValue (step s ev)) = true.
Proof.
  assert (R : forall r (a b : CalculatorState),
             displayValue a = "Error" -> displayValue b = JS.toString r ->
             let t := displayValue (if negb (JS.isFinite r) then a else b) in
             t = displayValue s \/ t = "Error" \/ is_numeric_literal t = true).
  { intros r a b Ea Eb. destruct (JS.isFinite r) eqn:F; simpl.
    - right. right. rewrite Eb. now apply toString_literal, finite_not_NaN.
    - right. now left. }
  intros [[op ->]| ->]; simpl.
  - unfold handleOperator.
    destruct (_ && _)%bool; [now left|].
    destruct (firstOperand s) as [first|]; [|now left].
    destruct (operator s) as [o|]; [|now left].
    destruct (truthy o); [|now left].
    now apply R.
  - unfold handleEquals.
    destruct (firstOperand s) as [first|]; [|now left].
    destruct (operator s) as [o|]; [|now left].
    now apply R.
Qed.

(** Displays that are not literals arise without [Error] too: [1 % % % % .]
    types a point after an exponent, and 310 nines overflow to a text that
    [+/-] prints and a digit is appended to. *)
Lemma typed_after_written_examples :
  displayValue (run initialState [Digit D1; Percent; Percent; Percent; Percent;
                                  Decimal]) = "1e-8."
  /\ displayValue (run initialState
                     (repeat (Digit D9) 310 ++ [ToggleSign; Digit D5])%list)
     = "-Infinity5"
  /\ displayValue (run initialState [Digit D5; Operator KDiv; Digit D0; Equals;
                                     ToggleSign; Digit D5]) = "NaN5"
  /\ is_numeric_literal "1e-8." = false
  /\ is_numeric_literal "-Infinity5" = false
  /\ is_numeric_literal "NaN5" = false.
Proof. repeat split; vm_compute; reflexivity. Qed.

(** C3, amended. In every reachable state [displayValue] is not the empty
    string: it is a numeric literal, [Error] or [NaN], followed by the digits
    and points typed after it (none, in most states), and holds at most one
    point.  The operator buttons and [=] leave the display as it is or write
    [Error] or a numeric literal; [+/-] and [%] write [NaN] or a numeric
    literal; and as long as only digits, the point and AC have been pressed
    the display is a numeric literal. *)
Theorem display_written_then_typed :
  (forall s, reachable s ->
     displayValue s <> EmptyString
     /\ display_shape (displayValue s)
     /\ (count_char "." (displayValue s) <= 1)%nat)
  /\ (forall s ev, (exists op, ev = Operator op) \/ ev = Equals ->
        displayValue (step s ev) = displayValue s
        \/ displayValue (step s ev) = "Error"
        \/ is_numeric_literal (displayValue (step s ev)) = true)
  /\ (forall s ev, sign_or_percent ev = true ->
        displayValue (step s ev) = "NaN"
        \/ is_numeric_literal (displayValue (step s ev)) = true)
  /\ (forall evs, forallb typing evs = true ->
        is_numeric_literal (displayValue (run initialState evs)) = true).
Proof.
  split; [|split; [exact result_display|split]].
  - intros s Hs. split; [now apply reachable_display_not_empty|].
    split; [now apply reachable_display_shape|now apply reachable_one_point].
  - intros s ev Hev.
    assert (W : forall x, JS.toString x = "NaN"
                          \/ is_numeric_literal (JS.toString x) = true).
    { intros x. destruct (toString_written x) as [L|[E|N]];
        [now right| |now left].
      now apply toString_not_Error in E. }
    destruct ev; try discriminate Hev; apply W.
  - intros evs Hevs. apply typed_number_is_literal.
    apply typing_run_typed_number; [exact Hevs|].
    split; [reflexivity|]. exists ["0"%char], []. repeat split.
    + discriminate.
    + now constructor.
    + now left.
Qed.

Lemma display_written_then_typed_witness :
  display_shape
    (displayValue (run initialState [Digit D5; Operator KDiv; Digit D0; Equals;
                                     Digit D5]))
  /\ (displayValue (run initialState [Digit D7; Operator KSub; Digit D2; Equals])
      = displayValue (run initialState [Digit D7; Operator KSub; Digit D2])
      \/ displayValue (run initialState [Digit D7; Operator KSub; Digit D2;
                                         Equals]) = "Error"
      \/ is_numeric_literal
           (displayValue (run initialState [Digit D7; Operator KSub; Digit D2;
                                            Equals])) = true)
  /\ (displayValue (run initialState [Digit D5; ToggleSign]) = "NaN"
      \/ is_numeric_literal
           (displayValue (run initialState [Digit D5; ToggleSign])) = true)
  /\ is_numeric_literal
       (displayValue (run initialState [Digit D1; Decimal; Digit D5; Decimal]))
     = true.
Proof.
  split; [|split; [|split]].
  - apply (proj1 display_written_then_typed), reachable_from_initial.
  - apply (proj1 (proj2 display_written_then_typed)
             (run initialState [Digit D7; Operator KSub; Digit D2]) Equals).
    now right.
  - apply (proj1 (proj2 (proj2 display_written_then_typed))
             (run initialState [Digit D5]) ToggleSign).
    reflexivity.
  - apply (proj2 (proj2 (proj2 display_written_then_typed))). reflexivity.
Defined.

(** ** Reading back what [String] prints *)

Local Open Scope list_scope.

(** *** Decimal digits *)

Lemma value_from_app (a : Z) (l1 l2 : JS.chars) :
  value_from a (l1 ++ l2)%list = value_from (value_from a l1) l2.
Proof. apply fold_left_app. Qed.

Lemma value_from_zeros (j : nat) :
  forall a, value_from a (repeat "0"%char j) = a * 10 ^ Z.of_nat j.
Proof.
  induction j as [|j IH]; intros a.
  - simpl. lia.
  - change (repeat "0"%char (S j)) with ("0"%char :: repeat "0"%char j).
    change (value_from a ("0"%char :: repeat "0"%char j))
      with (value_from (10 * a + 0) (repeat "0"%char j)).
    rewrite IH, Nat2Z.inj_succ, Z.pow_succ_r by lia. ring.
Qed.

Lemma dec_digits_aux_value (fuel : nat) :
  forall n acc, 0 <= n < 2 ^ Z.of_nat fuel ->
  exists l,
    JS.dec_digits_aux fuel n acc = (l ++ acc)%list
    /\ forall a, value_from a l = a * 10 ^ Z.of_nat (List.length l) + n.
Proof.
  induction fuel as [|f IH]; intros n acc Hn.
  - exists []. split; [reflexivity|]. intros a. simpl in *. lia.
  - simpl JS.dec_digits_aux.
    assert (M : 0 <= n mod 10 < 10) by (apply Z.mod_pos_bound; lia).
    destruct (n <? 10)%Z eqn:L.
    + apply Z.ltb_lt in L. exists [JS.digit_char (n mod 10)].
      split; [reflexivity|]. intros a. unfold value_from.
      cbn [fold_left List.length]. change (Z.of_nat 1) with 1.
      rewrite digit_val_char, Z.mod_small, Z.pow_1_r by lia. lia.
    + apply Z.ltb_ge in L.
      rewrite Nat2Z.inj_succ, Z.pow_succ_r in Hn by lia.
      destruct (IH (n / 10) (JS.digit_char (n mod 10) :: acc))
        as (l & E & V).
      { split; [apply Z.div_pos; lia|].
        apply Z.div_lt_upper_bound; lia. }
      exists (l ++ [JS.digit_char (n mod 10)])%list. split.
      * now rewrite E, <- app_assoc.
      * intros a. rewrite value_from_app, V. unfold value_from at 1.
        cbn [fold_left]. rewrite digit_val_char by exact M.
        rewrite length_app, Nat2Z.inj_add, Z.pow_add_r by lia.
        cbn [List.length]. change (Z.of_nat 1) with 1. rewrite Z.pow_1_r.
        pose proof (Z.div_mod n 10). lia.
Qed.

Lemma digits_value_dec_digits (n : Z) :
  0 <= n -> JS.digits_value (JS.dec_digits n) = n.
Proof.
  intros Hn. unfold JS.dec_digits.
  destruct (dec_digits_aux_value (S (Z.to_nat (Z.log2 n))) n []) as (l & E & V).
  { split; [exact Hn|].
    rewrite Nat2Z.inj_succ, Z2Nat.id by apply Z.log2_nonneg.
    destruct (Z.eq_dec n 0) as [->|N]; [reflexivity|].
    apply Z.log2_spec. lia. }
  rewrite E, app_nil_r. change (JS.digits_value l) with (value_from 0 l).
  rewrite V. lia.
Qed.

(** *** The literal in a printed decimal *)

Lemma digit_head_not_Infinity (c : ascii) (r : JS.chars) :
  JS.is_digit c = true ->
  JS.starts_with (list_ascii_of_string "Infinity") (c :: r) = false.
Proof.
  intros Hc.
  change (list_ascii_of_string "Infinity")
    with ("I"%char :: list_ascii_of_string "nfinity").
  cbn [JS.starts_with]. destruct (Ascii.eqb_spec "I" c) as [<-|_];
    [discriminate Hc|reflexivity].
Qed.

(** Digits, a point, digits, and a rest that does not go on with a digit. *)
Lemma parse_unsigned_point (neg : bool) (ip fp r2 : JS.chars) :
  all_digits ip -> all_digits fp -> ends_digits r2 ->
  (ip ++ fp)%list <> [] ->
  JS.starts_with (list_ascii_of_string "Infinity")
                 (ip ++ "."%char :: fp ++ r2)%list = false ->
  JS.parse_unsigned neg (ip ++ "."%char :: fp ++ r2)%list
  = Some (JS.LitDecimal neg (JS.digits_value (ip ++ fp)%list)
            (JS.parse_exponent r2 - Z.of_nat (List.length fp))).
Proof.
  intros Hip Hfp Hr Hne Hinf. unfold JS.parse_unsigned. rewrite Hinf.
  rewrite span_digits_app by (exact Hip || reflexivity).
  rewrite Ascii.eqb_refl, span_digits_app by assumption.
  destruct (ip ++ fp)%list; [congruence|reflexivity].
Qed.

(** Digits, and a rest that starts neither with a digit nor with a point. *)
Lemma parse_unsigned_integer (neg : bool) (ip r2 : JS.chars) :
  all_digits ip -> ip <> [] ->
  match r2 with
  | [] => True
  | c :: _ => JS.is_digit c = false /\ c <> "."%char
  end ->
  JS.parse_unsigned neg (ip ++ r2)%list
  = Some (JS.LitDecimal neg (JS.digits_value ip) (JS.parse_exponent r2)).
Proof.
  intros Hip Hne Hr. unfold JS.parse_unsigned.
  destruct ip as [|c ip']; [congruence|].
  inversion Hip as [|? ? Hc _]; subst.
  change ((c :: ip') ++ r2)%list with (c :: (ip' ++ r2))%list.
  rewrite digit_head_not_Infinity by exact Hc.
  change (c :: (ip' ++ r2))%list with ((c :: ip') ++ r2)%list.
  rewrite span_digits_app; [|exact Hip|destruct r2; tauto].
  assert (T : match r2 with
              | [] => ([], r2)
              | c0 :: r => if Ascii.eqb c0 "." then JS.span_digits r
                           else ([], r2)
              end = (@nil ascii, r2)).
  { destruct r2 as [|c0 r]; [reflexivity|].
    destruct Hr as [_ Hr]. apply Ascii.eqb_neq in Hr. now rewrite Hr. }
  rewrite T, app_nil_r. cbn [List.length]. f_equal. f_equal. lia.
Qed.

Lemma parse_exponent_printed (e : Z) :
  JS.parse_exponent
    ("e"%char :: (if (e <? 0)%Z then "-"%char else "+"%char)
              :: JS.dec_digits (Z.abs e)) = e.
Proof.
  unfold JS.parse_exponent.
  change (JS.is_exp_indicator "e") with true. cbv iota.
  pose proof (dec_digits_not_nil (Z.abs e)) as Hne.
  pose proof (digits_value_dec_digits (Z.abs e) (Z.abs_nonneg e)) as V.
  destruct (e <? 0)%Z eqn:L.
  - change (Ascii.eqb "-" "+") with false. change (Ascii.eqb "-" "-") with true.
    cbv iota. rewrite span_digits_all by apply dec_digits_all_digits.
    cbn [fst]. destruct (JS.dec_digits (Z.abs e)); [congruence|].
    rewrite V. apply Z.ltb_lt in L. lia.
  - change (Ascii.eqb "+" "+") with true.
    cbv iota. rewrite span_digits_all by apply dec_digits_all_digits.
    cbn [fst]. destruct (JS.dec_digits (Z.abs e)); [congruence|].
    rewrite V. apply Z.ltb_ge in L. lia.
Qed.

Lemma round_decimal_shift (neg : bool) (v j : Z) :
  0 <= j -> JS.round_decimal neg (v * 10 ^ j) 0 = JS.round_decimal neg v j.
Proof.
  intros Hj. unfold JS.round_decimal.
  replace (Z.max 0 0) with 0 by lia. replace (Z.max (- 0) 0) with 0 by lia.
  replace (Z.max j 0) with j by lia. replace (Z.max (- j) 0) with 0 by lia.
  now rewrite Z.pow_0_r, Z.mul_1_r.
Qed.

Lemma digits_value_leading_zeros (j : nat) (ds : JS.chars) :
  JS.digits_value ("0"%char :: repeat "0"%char j ++ ds)%list
  = JS.digits_value ds.
Proof.
  change (JS.digits_value ds) with (value_from 0 ds).
  change (JS.digits_value ("0"%char :: repeat "0"%char j ++ ds)%list)
    with (value_from 0 (repeat "0"%char (S j) ++ ds)%list).
  rewrite value_from_app, value_from_zeros. reflexivity.
Qed.

(** What [parseFloat] reads in the text printed for the digits [ds] and the
    exponent [n] is the decimal [ds * 10^(n-k)]. *)
Lemma parse_format_decimal (neg : bool) (ds : JS.chars) (n : Z) :
  all_digits ds -> ds <> [] ->
  JS.literal_value (JS.parse_unsigned neg (JS.format_decimal ds n))
  = JS.round_decimal neg (JS.digits_value ds)
      (n - Z.of_nat (List.length ds)).
Proof.
  intros Hds Hne. unfold JS.format_decimal.
  destruct ((-5 <=? n) && (n <=? 21))%Z.
  - destruct (Z.of_nat (List.length ds) <=? n)%Z eqn:K;
      [apply Z.leb_le in K | apply Z.leb_gt in K].
    + (* digits and zeros *)
      rewrite <- (app_nil_r (ds ++ repeat "0"%char _)%list).
      rewrite parse_unsigned_integer.
      * unfold JS.literal_value. cbn [JS.parse_exponent].
        change (JS.digits_value (ds ++ repeat "0"%char
                                   (Z.to_nat (n - Z.of_nat (List.length ds)))))
          with (value_from 0 (ds ++ repeat "0"%char
                                (Z.to_nat (n - Z.of_nat (List.length ds))))).
        rewrite value_from_app, value_from_zeros, Z2Nat.id by lia.
        apply round_decimal_shift. lia.
      * apply Forall_app. split; [exact Hds|].
        apply Forall_forall. intros c Hc. apply repeat_spec in Hc. now subst c.
      * intros N. apply app_eq_nil in N. tauto.
      * exact I.
    + destruct (0 <? n)%Z eqn:N; [apply Z.ltb_lt in N | apply Z.ltb_ge in N].
      * (* a point inside the digits *)
        pose proof (firstn_skipn (Z.to_nat n) ds) as FS.
        assert (Hf : all_digits (firstn (Z.to_nat n) ds)
                     /\ all_digits (skipn (Z.to_nat n) ds)).
        { apply Forall_app. unfold all_digits in Hds. now rewrite FS. }
        destruct Hf as [Hf Hs].
        rewrite <- (app_nil_r (skipn (Z.to_nat n) ds)) at 1.
        rewrite parse_unsigned_point; try assumption.
        -- unfold JS.literal_value. cbn [JS.parse_exponent].
           rewrite FS, length_skipn. f_equal; lia.
        -- exact I.
        -- now rewrite FS.
        -- destruct ds as [|d rest]; [congruence|].
           destruct (Z.to_nat n) as [|j] eqn:J; [lia|].
           inversion Hds; subst. cbn [firstn app].
           now apply digit_head_not_Infinity.
      * (* zeros between the point and the digits *)
        change ("0"%char :: "."%char :: repeat "0"%char (Z.to_nat (- n)) ++ ds)%list
          with (["0"%char] ++ "."%char
                  :: repeat "0"%char (Z.to_nat (- n)) ++ ds)%list.
        rewrite <- (app_nil_r (repeat "0"%char (Z.to_nat (- n)) ++ ds)%list).
        rewrite parse_unsigned_point.
        -- unfold JS.literal_value. cbn [JS.parse_exponent app].
           rewrite digits_value_leading_zeros, length_app, repeat_length.
           f_equal; lia.
        -- now constructor.
        -- apply Forall_app. split; [|exact Hds].
           apply Forall_forall. intros c Hc. apply repeat_spec in Hc.
           now subst c.
        -- exact I.
        -- discriminate.
        -- reflexivity.
  - destruct ds as [|d rest]; [congruence|].
    inversion Hds as [|? ? Hd Hrest]; subst.
    destruct rest as [|d' rest'].
    + (* one digit and an exponent *)
      change (d :: ?r)%list with ([d] ++ r)%list.
      rewrite parse_unsigned_integer.
      * unfold JS.literal_value. rewrite parse_exponent_printed.
        cbn [List.length]. f_equal; lia.
      * now constructor.
      * discriminate.
      * split; [reflexivity|discriminate].
    + (* a digit, a point, digits and an exponent *)
      change (d :: "."%char :: ?r)%list with ([d] ++ "."%char :: r)%list.
      rewrite parse_unsigned_point.
      * unfold JS.literal_value. rewrite parse_exponent_printed.
        cbn [app List.length]. f_equal; lia.
      * now constructor.
      * exact Hrest.
      * reflexivity.
      * discriminate.
      * cbn [app]. now apply digit_head_not_Infinity.
Qed.

(** ** Binary64 rounding *)

Local Close Scope string_scope.

(** [0 < b ^ e], for a positive base and an exponent that is not negative. *)
Ltac pow_pos := apply Z.pow_pos_nonneg; lia.

Lemma fexp64_eq (x : Z) : fexp64 x = Z.max (x - 53) (-1074).
Proof. reflexivity. Qed.

Lemma digits2_pos_log2 (p : positive) :
  Zpos (digits2_pos p) = Z.log2 (Zpos p) + 1.
Proof.
  induction p as [p IH|p IH|]; [| |reflexivity].
  - change (Zpos (digits2_pos p~1)) with (Zpos (Pos.succ (digits2_pos p))).
    rewrite Pos2Z.inj_succ, IH.
    change (Zpos p~1) with (2 * Zpos p + 1).
    rewrite Z.log2_succ_double by lia. lia.
  - change (Zpos (digits2_pos p~0)) with (Zpos (Pos.succ (digits2_pos p))).
    rewrite Pos2Z.inj_succ, IH.
    change (Zpos p~0) with (2 * Zpos p).
    rewrite Z.log2_double by lia. lia.
Qed.

Lemma Zdigits2_log2 (m : Z) : 0 < m -> Zdigits2 m = Z.log2 m + 1.
Proof.
  destruct m as [|p|p]; try lia. intros _. apply digits2_pos_log2.
Qed.

Lemma Zdigits2_pos (p : positive) : 1 <= Zdigits2 (Zpos p).
Proof.
  rewrite Zdigits2_log2 by lia. pose proof (Z.log2_nonneg (Zpos p)). lia.
Qed.

Lemma Zdigits2_mul_pow2 (m j : Z) :
  0 < m -> 0 <= j -> Zdigits2 (m * 2 ^ j) = Zdigits2 m + j.
Proof.
  intros Hm Hj. rewrite !Zdigits2_log2; [|lia|].
  - rewrite Z.log2_mul_pow2 by lia. lia.
  - apply Z.mul_pos_pos; [lia|pow_pos].
Qed.

Lemma Zdigits2_le (a b : Z) : 0 < a <= b -> Zdigits2 a <= Zdigits2 b.
Proof.
  intros H. rewrite !Zdigits2_log2 by lia.
  pose proof (Z.log2_le_mono a b). lia.
Qed.

Lemma Zdigits2_bounds (m : Z) :
  0 < m -> 2 ^ (Zdigits2 m - 1) <= m < 2 ^ Zdigits2 m.
Proof.
  intros Hm. rewrite Zdigits2_log2 by lia.
  replace (Z.log2 m + 1 - 1) with (Z.log2 m) by lia.
  apply Z.log2_spec. lia.
Qed.

Lemma Zdigits2_shift (m n : Z) :
  0 <= m -> 0 <= n ->
  (m / 2 ^ n = 0 /\ Zdigits2 m <= n)
  \/ (0 < m / 2 ^ n /\ Zdigits2 (m / 2 ^ n) = Zdigits2 m - n).
Proof.
  intros Hm Hn.
  destruct (Z.eq_dec m 0) as [->|Hm0].
  { left. split; [apply Z.div_0_l|simpl; lia].
    apply Z.pow_nonzero; lia. }
  assert (P : 0 < 2 ^ n) by pow_pos.
  destruct (Z.lt_ge_cases m (2 ^ n)) as [L|G].
  - left. split; [apply Z.div_small; lia|].
    rewrite Zdigits2_log2 by lia.
    apply Z.log2_lt_pow2 in L; lia.
  - right.
    assert (Q : 0 < m / 2 ^ n).
    { apply Z.div_str_pos. lia. }
    split; [exact Q|].
    rewrite !Zdigits2_log2 by lia.
    rewrite <- Z.shiftr_div_pow2 by lia.
    rewrite Z.log2_shiftr by lia.
    apply Z.log2_le_pow2 in G; lia.
Qed.

(** *** Shifting right *)

Lemma shr_1_m (mrs : shr_record) :
  0 <= shr_m mrs -> shr_m (shr_1 mrs) = shr_m mrs / 2.
Proof.
  destruct mrs as [m r s]. cbn [shr_m]. intros Hm.
  rewrite <- Z.div2_div.
  destruct m as [|[p|p|]|p]; try reflexivity; lia.
Qed.

Lemma pow2_xO (n : positive) : 2 ^ Zpos n~0 = 2 ^ Zpos n * 2 ^ Zpos n.
Proof. rewrite <- Z.pow_add_r by lia. f_equal. lia. Qed.

Lemma pow2_xI (n : positive) : 2 ^ Zpos n~1 = 2 * (2 ^ Zpos n * 2 ^ Zpos n).
Proof.
  rewrite <- Z.pow_add_r, <- Z.pow_succ_r by lia. f_equal. lia.
Qed.

Lemma iter_shr_m (n : positive) :
  forall mrs, 0 <= shr_m mrs ->
    shr_m (iter_pos shr_1 n mrs) = shr_m mrs / 2 ^ Zpos n.
Proof.
  assert (P : forall k, 0 < 2 ^ Zpos k) by (intros; pow_pos).
  induction n as [n IH|n IH|]; intros mrs Hm; cbn [iter_pos].
  - pose proof (shr_1_m mrs Hm) as E1.
    assert (H1 : 0 <= shr_m (shr_1 mrs))
      by (rewrite E1; apply Z.div_pos; lia).
    pose proof (IH _ H1) as E2.
    assert (H2 : 0 <= shr_m (iter_pos shr_1 n (shr_1 mrs)))
      by (rewrite E2; apply Z.div_pos; [lia|apply P]).
    rewrite (IH _ H2), E2, E1, pow2_xI.
    rewrite !Z.div_div by (try apply P; lia).
    try (f_equal; ring).
  - pose proof (IH _ Hm) as E1.
    assert (H1 : 0 <= shr_m (iter_pos shr_1 n mrs))
      by (rewrite E1; apply Z.div_pos; [lia|apply P]).
    rewrite (IH _ H1), E1, pow2_xO.
    now rewrite !Z.div_div by (try apply P; lia).
  - rewrite shr_1_m by exact Hm. reflexivity.
Qed.

Lemma shr_1_double (m : Z) :
  0 <= m -> shr_1 (exact_record (2 * m)) = exact_record m.
Proof. destruct m as [|p|p]; try reflexivity; lia. Qed.

Lemma iter_shr_exact (n : positive) :
  forall m, 0 <= m ->
    iter_pos shr_1 n (exact_record (m * 2 ^ Zpos n)) = exact_record m.
Proof.
  assert (P : forall k, 0 < 2 ^ Zpos k) by (intros; pow_pos).
  induction n as [n IH|n IH|]; intros m Hm; cbn [iter_pos].
  - replace (m * 2 ^ Zpos n~1) with (2 * ((m * 2 ^ Zpos n) * 2 ^ Zpos n))
      by (rewrite pow2_xI; ring).
    pose proof (P n).
    rewrite shr_1_double, IH, IH; auto; nia.
  - replace (m * 2 ^ Zpos n~0) with ((m * 2 ^ Zpos n) * 2 ^ Zpos n)
      by (rewrite pow2_xO; ring).
    pose proof (P n).
    rewrite IH, IH; auto; nia.
  - rewrite Z.pow_1_r, Z.mul_comm. now apply shr_1_double.
Qed.

Lemma shr_record_of_loc_m (m : Z) (l : location) :
  shr_m (shr_record_of_loc m l) = m.
Proof. destruct l as [|[]]; reflexivity. Qed.

Lemma shr_fexp_shape (m e : Z) (l : location) :
  0 <= m ->
  exists mrs,
    shr_fexp JS.prec JS.emax m e l
    = (mrs, e + Z.max (fexp64 (Zdigits2 m + e) - e) 0)
    /\ shr_m mrs = m / 2 ^ Z.max (fexp64 (Zdigits2 m + e) - e) 0.
Proof.
  intros Hm. unfold shr_fexp, shr. fold (fexp64 (Zdigits2 m + e)).
  destruct (fexp64 (Zdigits2 m + e) - e) as [|n|n] eqn:N.
  - eexists. split; [f_equal; simpl; lia|].
    rewrite shr_record_of_loc_m. simpl. now rewrite Z.div_1_r.
  - eexists. split; [reflexivity|].
    rewrite iter_shr_m by (rewrite shr_record_of_loc_m; exact Hm).
    now rewrite shr_record_of_loc_m.
  - eexists. split; [f_equal; simpl; lia|].
    rewrite shr_record_of_loc_m. simpl. now rewrite Z.div_1_r.
Qed.

Lemma round_nearest_even_bounds (m : Z) (l : location) :
  m <= round_nearest_even m l <= m + 1.
Proof.
  destruct l as [|[]]; simpl; try lia. destruct (Z.even m); lia.
Qed.

(** *** Rounding a value that needs no rounding *)

Lemma bounded_canonical (m : positive) (e : Z) :
  bounded JS.prec JS.emax m e = true ->
  fexp64 (Zdigits2 (Zpos m) + e) = e /\ e <= JS.emax - JS.prec.
Proof.
  unfold bounded, canonical_mantissa. intros H.
  apply andb_true_iff in H. destruct H as [C L].
  apply Z.eqb_eq in C. apply Z.leb_le in L. split; assumption.
Qed.

Lemma binary_round_aux_exact (sx : bool) (m : positive) (e j : Z) :
  bounded JS.prec JS.emax m e = true -> 0 <= j ->
  binary_round_aux JS.prec JS.emax sx (Zpos m * 2 ^ j) (e - j) loc_Exact
  = S754_finite sx m e.
Proof.
  intros B Hj. destruct (bounded_canonical m e B) as [C L].
  assert (S1 : shr_fexp JS.prec JS.emax (Zpos m * 2 ^ j) (e - j) loc_Exact
               = (exact_record (Zpos m), e)).
  { unfold shr_fexp. fold (fexp64 (Zdigits2 (Zpos m * 2 ^ j) + (e - j))).
    rewrite Zdigits2_mul_pow2 by lia.
    replace (Zdigits2 (Zpos m) + j + (e - j)) with (Zdigits2 (Zpos m) + e)
      by lia.
    rewrite C. replace (e - (e - j)) with j by lia.
    change (shr_record_of_loc (Zpos m * 2 ^ j) loc_Exact)
      with (exact_record (Zpos m * 2 ^ j)).
    unfold shr. destruct j as [|p|p]; [| |lia].
    - rewrite Z.pow_0_r, Z.mul_1_r. f_equal. lia.
    - rewrite iter_shr_exact by lia. f_equal. lia. }
  assert (S2 : shr_fexp JS.prec JS.emax (Zpos m) e loc_Exact
               = (exact_record (Zpos m), e)).
  { unfold shr_fexp. fold (fexp64 (Zdigits2 (Zpos m) + e)).
    rewrite C, Z.sub_diag. reflexivity. }
  unfold binary_round_aux. rewrite S1.
  change (round_nearest_even (shr_m (exact_record (Zpos m)))
            (loc_of_shr_record (exact_record (Zpos m)))) with (Zpos m).
  rewrite S2. cbn [shr_m exact_record].
  apply Z.leb_le in L. now rewrite L.
Qed.

(** *** Rounding gives a canonical representation *)

Lemma binary_round_aux_valid (sx : bool) (mx ex : Z) (lx : location) :
  0 <= mx -> ex <= fexp64 (Zdigits2 mx + ex) ->
  valid_binary JS.prec JS.emax (binary_round_aux JS.prec JS.emax sx mx ex lx)
  = true.
Proof.
  intros Hm He. unfold binary_round_aux.
  destruct (shr_fexp_shape mx ex lx Hm) as (mrs1 & E1 & M1). rewrite E1.
  set (n1 := fexp64 (Zdigits2 mx + ex) - ex) in *.
  assert (N1 : Z.max n1 0 = n1) by lia. rewrite N1 in *.
  pose proof (round_nearest_even_bounds (shr_m mrs1) (loc_of_shr_record mrs1))
    as R.
  set (m2 := round_nearest_even (shr_m mrs1) (loc_of_shr_record mrs1)) in *.
  set (e1 := ex + n1) in *.
  assert (Hm1 : 0 <= shr_m mrs1)
    by (rewrite M1; apply Z.div_pos; [lia|pow_pos]).
  assert (Hm2 : 0 <= m2) by lia.
  destruct (shr_fexp_shape m2 e1 loc_Exact Hm2) as (mrs2 & E2 & M2).
  rewrite E2.
  set (n2 := fexp64 (Zdigits2 m2 + e1) - e1) in *.
  destruct (shr_m mrs2) as [|m3|m3] eqn:M3; [reflexivity| |reflexivity].
  destruct (_ <=? _)%Z eqn:L; [|reflexivity].
  cbn [valid_binary]. unfold bounded. rewrite L, andb_true_r.
  unfold canonical_mantissa. apply Z.eqb_eq.
  fold (fexp64 (Zpos (digits2_pos m3) + (e1 + Z.max n2 0))).
  change (Zpos (digits2_pos m3)) with (Zdigits2 (Zpos m3)).
  (* the second shift cannot be negative *)
  assert (N2 : 0 <= n2).
  { destruct (Zdigits2_shift mx n1 Hm) as [[Z1 D1]|[P1 D1]]; [lia| |].
    - (* everything was shifted out: the exponent is the least one *)
      assert (m2 = 0 \/ m2 = 1) as [Z2|O2] by lia.
      + rewrite Z2 in M2. rewrite Z.div_0_l in M2; [lia|].
        apply Z.pow_nonzero; lia.
      + subst n2. rewrite O2. change (Zdigits2 1) with 1.
        unfold e1, n1 in *. rewrite !fexp64_eq in *. lia.
    - rewrite <- M1 in P1, D1.
      assert (D2 : Zdigits2 (shr_m mrs1) <= Zdigits2 m2)
        by (apply Zdigits2_le; lia).
      subst n2. unfold e1, n1 in *. rewrite !fexp64_eq in *. lia. }
  rewrite Z.max_l in * by lia.
  destruct (Zdigits2_shift m2 n2 Hm2 N2) as [[Z3 _]|[_ D3]]; [lia|].
  rewrite <- M2 in D3. rewrite D3.
  replace (Zdigits2 m2 - n2 + (e1 + n2)) with (Zdigits2 m2 + e1) by lia.
  subst n2. lia.
Qed.

(** *** Dividing two integers *)

Lemma div_core_shape (p q : positive) :
  let e' := Z.min (fexp64 (Zdigits2 (Zpos p) - Zdigits2 (Zpos q))) 0 in
  SFdiv_core_binary JS.prec JS.emax (Zpos p) 0 (Zpos q) 0
  = ((Zpos p * 2 ^ (- e')) / Zpos q, e',
     new_location (Zpos q) ((Zpos p * 2 ^ (- e')) mod Zpos q)).
Proof.
  intros e'. unfold SFdiv_core_binary.
  rewrite !Z.add_0_r.
  change (0 - 0) with 0.
  fold (fexp64 (Zdigits2 (Zpos p) - Zdigits2 (Zpos q))). fold e'.
  assert (He : e' <= 0) by (unfold e'; lia).
  replace (0 - e') with (- e') by lia.
  assert (M : match - e' with
              | 0 => Zpos p
              | Zpos _ => Z.shiftl (Zpos p) (- e')
              | Zneg _ => 0
              end = Zpos p * 2 ^ (- e')).
  { destruct (- e') as [|s|s] eqn:S; [| |lia].
    - now rewrite Z.pow_0_r, Z.mul_1_r.
    - apply Z.shiftl_mul_pow2. lia. }
  rewrite M. unfold Z.div, Z.modulo.
  now destruct (Z.div_eucl (Zpos p * 2 ^ (- e')) (Zpos q)).
Qed.

Lemma new_location_zero (n : Z) : new_location n 0 = loc_Exact.
Proof.
  unfold new_location, new_location_even, new_location_odd.
  now destruct (Z.even n).
Qed.

(** The quotient of two integers is [m * 2^e] itself when it is that value
    and [m], [e] is a binary64 representation. *)
Lemma div_integers_exact (neg : bool) (p q m : positive) (e : Z) :
  bounded JS.prec JS.emax m e = true ->
  Zpos p * 2 ^ Z.max (- e) 0 = Zpos m * Zpos q * 2 ^ Z.max e 0 ->
  JS.div (S754_finite neg p 0) (S754_finite false q 0) = S754_finite neg m e.
Proof.
  intros B V. destruct (bounded_canonical m e B) as [C L].
  unfold JS.div, SFdiv. rewrite div_core_shape.
  set (e' := Z.min (fexp64 (Zdigits2 (Zpos p) - Zdigits2 (Zpos q))) 0).
  (* the exponent [e'] of the quotient is at most [e] *)
  assert (D : Zdigits2 (Zpos p) - Zdigits2 (Zpos q) <= Zdigits2 (Zpos m) + e).
  { pose proof (Zdigits2_bounds (Zpos p) eq_refl) as [Pl _].
    pose proof (Zdigits2_bounds (Zpos q) eq_refl) as [_ Qu].
    pose proof (Zdigits2_bounds (Zpos m) eq_refl) as [_ Mu].
    pose proof (Zdigits2_pos p) as Dp.
    pose proof (Zdigits2_pos q) as Dq.
    pose proof (Zdigits2_pos m) as Dm.
    set (dp := Zdigits2 (Zpos p)) in *. set (dq := Zdigits2 (Zpos q)) in *.
    set (dm := Zdigits2 (Zpos m)) in *.
    (* 2^(dp-1) * 2^max(-e,0) <= p * 2^max(-e,0) = m q 2^max(e,0)
       < 2^dm * 2^dq * 2^max(e,0) *)
    assert (X : 2 ^ (dp - 1 + Z.max (- e) 0) < 2 ^ (dm + dq + Z.max e 0)).
    { rewrite !Z.pow_add_r by lia.
      assert (0 < 2 ^ Z.max (- e) 0) by pow_pos.
      assert (0 < 2 ^ Z.max e 0) by pow_pos.
      assert (0 < 2 ^ dm) by pow_pos.
      assert (0 < 2 ^ dq) by pow_pos.
      apply Z.le_lt_trans with (Zpos p * 2 ^ Z.max (- e) 0); [nia|].
      rewrite V.
      apply Z.mul_lt_mono_pos_r; [lia|]. nia. }
    apply Z.pow_lt_mono_r_iff in X; lia. }
  assert (E' : e' <= e).
  { unfold e'. rewrite fexp64_eq. rewrite fexp64_eq in C. lia. }
  assert (E0 : e' <= 0) by (unfold e'; lia).
  (* so the division leaves no remainder *)
  assert (Q : Zpos p * 2 ^ (- e') = (Zpos m * 2 ^ (e - e')) * Zpos q).
  { assert (0 < 2 ^ Z.max (- e) 0) by pow_pos.
    apply Z.mul_reg_r with (2 ^ Z.max (- e) 0); [lia|].
    replace (Zpos p * 2 ^ (- e') * 2 ^ Z.max (- e) 0)
      with ((Zpos p * 2 ^ Z.max (- e) 0) * 2 ^ (- e')) by ring.
    rewrite V.
    replace (Zpos m * 2 ^ (e - e') * Zpos q * 2 ^ Z.max (- e) 0)
      with (Zpos m * Zpos q * (2 ^ (e - e') * 2 ^ Z.max (- e) 0)) by ring.
    rewrite <- !Z.mul_assoc, <- !Z.pow_add_r by lia.
    do 3 f_equal. lia. }
  rewrite Q, Z.div_mul, Z.mod_mul, new_location_zero by lia.
  replace e' with (e - (e - e')) at 2 by lia.
  rewrite binary_round_aux_exact by (assumption || lia).
  now rewrite xorb_false_r.
Qed.

(** The quotient of two integers is a valid binary64. *)
Lemma div_integers_valid (neg : bool) (p q : positive) :
  valid_binary JS.prec JS.emax
    (JS.div (S754_finite neg p 0) (S754_finite false q 0)) = true.
Proof.
  unfold JS.div, SFdiv. rewrite div_core_shape.
  set (e' := Z.min (fexp64 (Zdigits2 (Zpos p) - Zdigits2 (Zpos q))) 0).
  assert (E0 : e' <= 0) by (unfold e'; lia).
  assert (P2 : 0 < 2 ^ (- e')) by pow_pos.
  set (a := Zpos p * 2 ^ (- e')).
  assert (Ha : 0 < a) by (unfold a; nia).
  assert (Da : Zdigits2 a = Zdigits2 (Zpos p) - e')
    by (unfold a; rewrite Zdigits2_mul_pow2; lia).
  apply binary_round_aux_valid.
  { apply Z.div_pos; lia. }
  pose proof (Zdigits2_bounds a Ha) as [Al _].
  pose proof (Zdigits2_bounds (Zpos q) eq_refl) as [_ Qu].
  pose proof (Zdigits2_pos q) as Dq.
  set (dq := Zdigits2 (Zpos q)) in *. set (da := Zdigits2 a) in *.
  destruct (Z.le_gt_cases dq (da - 1)) as [G|S].
  - (* the quotient has at least [da - dq] digits *)
    assert (Q : 2 ^ (da - 1 - dq) <= a / Zpos q).
    { apply Z.div_le_lower_bound; [lia|].
      assert (0 < 2 ^ (da - 1 - dq)) by pow_pos.
      apply Z.le_trans with (2 ^ dq * 2 ^ (da - 1 - dq)); [nia|].
      rewrite <- Z.pow_add_r by lia.
      replace (dq + (da - 1 - dq)) with (da - 1) by lia. exact Al. }
    assert (Qp : 0 < a / Zpos q).
    { assert (0 < 2 ^ (da - 1 - dq)) by pow_pos. lia. }
    assert (Dq' : da - dq <= Zdigits2 (a / Zpos q)).
    { rewrite Zdigits2_log2 by exact Qp.
      apply Z.log2_le_pow2 in Q; lia. }
    unfold e' in *. rewrite !fexp64_eq in *. lia.
  - (* a small quotient: the exponent is the least one *)
    assert (Dq' : 0 <= Zdigits2 (a / Zpos q)).
    { destruct (Z.eq_dec (a / Zpos q) 0) as [->|N]; [simpl; lia|].
      assert (0 <= a / Zpos q) by (apply Z.div_pos; lia).
      rewrite Zdigits2_log2 by lia.
      pose proof (Z.log2_nonneg (a / Zpos q)). lia. }
    unfold e' in *. rewrite !fexp64_eq in *. lia.
Qed.

(** *** Multiplying by [-1] *)

Lemma mul_minus_one (x : JS.number) :
  valid_binary JS.prec JS.emax x = true ->
  JS.mul x (JS.of_Z (-1)) = SFopp x.
Proof.
  intros V.
  change (JS.of_Z (-1)) with (S754_finite true 4503599627370496 (-52)).
  destruct x as [s|s| |s m e]; [now destruct s|now destruct s|reflexivity|].
  - unfold JS.mul, SFmul.
    replace (Zpos (m * 4503599627370496)) with (Zpos m * 2 ^ 52) by reflexivity.
    replace (e + -52) with (e - 52) by lia.
    rewrite binary_round_aux_exact by (exact V || lia).
    simpl. now rewrite xorb_true_r.
Qed.

(** ** [parseFloat (String x)] *)

Lemma round_decimal_valid (neg : bool) (mant exp10 : Z) :
  valid_binary JS.prec JS.emax (JS.round_decimal neg mant exp10) = true.
Proof.
  unfold JS.round_decimal.
  destruct (mant * 10 ^ Z.max exp10 0) as [|p|p]; try reflexivity.
  destruct (10 ^ Z.max (- exp10) 0) as [|q|q]; try reflexivity.
  apply div_integers_valid.
Qed.

Lemma parseFloat_valid (s : string) :
  valid_binary JS.prec JS.emax (JS.parseFloat s) = true.
Proof.
  unfold JS.parseFloat, JS.parseFloat_chars, JS.literal_value.
  destruct (JS.parse_literal _) as [[neg|neg mant exp10]|]; try reflexivity.
  apply round_decimal_valid.
Qed.

Lemma binary_round_aux_opp (m e : Z) (l : location) :
  binary_round_aux JS.prec JS.emax true m e l
  = SFopp (binary_round_aux JS.prec JS.emax false m e l).
Proof.
  unfold binary_round_aux.
  destruct (shr_fexp JS.prec JS.emax m e l) as [mrs1 e1].
  destruct (shr_fexp JS.prec JS.emax _ e1 loc_Exact) as [mrs2 e2].
  destruct (shr_m mrs2); try reflexivity.
  now destruct (_ <=? _)%Z.
Qed.

Lemma round_decimal_opp (mant exp10 : Z) :
  JS.round_decimal true mant exp10
  = SFopp (JS.round_decimal false mant exp10).
Proof.
  unfold JS.round_decimal.
  destruct (mant * 10 ^ Z.max exp10 0) as [|p|p]; try reflexivity.
  destruct (10 ^ Z.max (- exp10) 0) as [|q|q]; try reflexivity.
  unfold JS.div, SFdiv.
  destruct (SFdiv_core_binary JS.prec JS.emax (Zpos p) 0 (Zpos q) 0)
    as [[mz ez] lz].
  apply binary_round_aux_opp.
Qed.

Lemma round_decimal_exact (neg : bool) (mant exp10 : Z) (m : positive) (e : Z) :
  bounded JS.prec JS.emax m e = true ->
  mant * 10 ^ Z.max exp10 0 * 2 ^ Z.max (- e) 0
  = Zpos m * 10 ^ Z.max (- exp10) 0 * 2 ^ Z.max e 0 ->
  JS.round_decimal neg mant exp10 = S754_finite neg m e.
Proof.
  intros B V. unfold JS.round_decimal.
  assert (Q : 0 < 10 ^ Z.max (- exp10) 0) by pow_pos.
  assert (P2 : 0 < 2 ^ Z.max (- e) 0) by pow_pos.
  assert (P3 : 0 < 2 ^ Z.max e 0) by pow_pos.
  assert (P : 0 < mant * 10 ^ Z.max exp10 0) by nia.
  destruct (mant * 10 ^ Z.max exp10 0) as [|p|p]; try lia.
  destruct (10 ^ Z.max (- exp10) 0) as [|q|q]; try lia.
  now apply div_integers_exact.
Qed.

Lemma same_eq (x y : JS.number) : JS.same x y = true -> x = y.
Proof.
  destruct x as [a|a| |a m e], y as [b|b| |b m' e']; simpl;
    try discriminate; try reflexivity.
  - intros H. apply eqb_prop in H. now subst.
  - intros H. apply eqb_prop in H. now subst.
  - intros H. apply andb_true_iff in H. destruct H as [H E].
    apply andb_true_iff in H. destruct H as [S M].
    apply eqb_prop in S. apply Pos.eqb_eq in M. apply Z.eqb_eq in E.
    now subst.
Qed.

Lemma candidates_nonneg (num den n k : Z) :
  0 < num -> 0 < den ->
  0 <= fst (fst (JS.candidates num den n k))
  /\ 0 <= fst (snd (JS.candidates num den n k)).
Proof.
  intros Hn Hd. unfold JS.candidates.
  set (sn := num * 10 ^ Z.max (k - n) 0).
  set (sd := den * 10 ^ Z.max (n - k) 0).
  assert (0 < 10 ^ Z.max (k - n) 0) by pow_pos.
  assert (0 < 10 ^ Z.max (n - k) 0) by pow_pos.
  assert (L : 0 <= sn / sd) by (apply Z.div_pos; unfold sn, sd; nia).
  assert (N : forall s, 0 <= s ->
            0 <= fst (if (s =? 10 ^ k)%Z then (10 ^ (k - 1), n + 1)
                      else (s, n))).
  { intros s Hs. destruct (s =? 10 ^ k)%Z; cbn [fst]; [|exact Hs].
    apply Z.pow_nonneg. lia. }
  destruct (match 2 * (sn mod sd) ?= sd with
            | Eq => Z.even (sn / sd) | Lt => true | Gt => false end);
    cbn [fst snd]; split; apply N; lia.
Qed.

Lemma shortest_sound (fuel : nat) (x : JS.number) (num den n : Z) :
  0 < num -> 0 < den ->
  forall k sn, JS.shortest fuel x num den n k = Some sn ->
               JS.denotes x sn = true /\ 0 <= fst sn.
Proof.
  intros Hn Hd. induction fuel as [|f IH]; intros k sn; [discriminate|].
  cbn [JS.shortest].
  pose proof (candidates_nonneg num den n k Hn Hd) as [N1 N2].
  destruct (JS.candidates num den n k) as [c1 c2]. cbn [fst snd] in N1, N2.
  destruct (JS.denotes x c1) eqn:D1.
  - intros E. injection E as <-. now split.
  - destruct (JS.denotes x c2) eqn:D2.
    + intros E. injection E as <-. now split.
    + apply IH.
Qed.

Lemma exact_decimal_denotes (m : positive) (e : Z) :
  bounded JS.prec JS.emax m e = true ->
  JS.denotes (S754_finite false m e) (JS.exact_decimal m e) = true
  /\ 0 <= fst (JS.exact_decimal m e).
Proof.
  intros B. unfold JS.exact_decimal, JS.denotes.
  destruct (0 <=? e)%Z eqn:E; [apply Z.leb_le in E | apply Z.leb_gt in E];
    cbn [fst snd].
  - assert (0 < 2 ^ e) by pow_pos.
    split; [|nia].
    rewrite Z.sub_diag.
    rewrite (round_decimal_exact false _ _ m e B).
    + simpl. now rewrite Pos.eqb_refl, Z.eqb_refl.
    + replace (Z.max 0 0) with 0 by lia.
      replace (Z.max (- 0) 0) with 0 by lia.
      replace (Z.max (- e) 0) with 0 by lia.
      replace (Z.max e 0) with e by lia.
      rewrite !Z.pow_0_r. ring.
  - assert (0 < 5 ^ (- e)) by pow_pos.
    split; [|nia].
    replace (JS.ndigits (Zpos m * 5 ^ (- e)) + e
             - JS.ndigits (Zpos m * 5 ^ (- e))) with e by lia.
    rewrite (round_decimal_exact false _ _ m e B).
    + simpl. now rewrite Pos.eqb_refl, Z.eqb_refl.
    + replace (Z.max e 0) with 0 by lia.
      replace (Z.max (- e) 0) with (- e) by lia.
      change (10 ^ (- e)) with ((5 * 2) ^ (- e)). rewrite Z.pow_mul_l.
      rewrite !Z.pow_0_r. ring.
Qed.

Lemma shortest_decimal_denotes (m : positive) (e : Z) :
  bounded JS.prec JS.emax m e = true ->
  JS.round_decimal false (fst (JS.shortest_decimal m e))
    (snd (JS.shortest_decimal m e) - JS.ndigits (fst (JS.shortest_decimal m e)))
  = S754_finite false m e
  /\ 0 <= fst (JS.shortest_decimal m e).
Proof.
  intros B. unfold JS.shortest_decimal.
  assert (D : forall sn, JS.denotes (S754_finite false m e) sn = true ->
              JS.round_decimal false (fst sn) (snd sn - JS.ndigits (fst sn))
              = S754_finite false m e)
    by (intros sn H; now apply same_eq).
  destruct (JS.shortest 17 _ _ _ _ 1) as [sn|] eqn:Sh.
  - apply shortest_sound in Sh.
    + destruct Sh as [Sh N]. split; [now apply D|exact N].
    + assert (0 < 2 ^ Z.max e 0) by pow_pos. nia.
    + pow_pos.
  - destruct (exact_decimal_denotes m e B) as [S N].
    split; [now apply D|exact N].
Qed.

Lemma digit_not_white (c : ascii) :
  JS.is_digit c = true -> JS.is_white c = false.
Proof.
  unfold JS.is_digit, JS.is_white. intros H.
  apply andb_true_iff in H. destruct H as [L U].
  apply N.leb_le in L. apply N.leb_le in U.
  repeat (apply orb_false_iff; split).
  - apply andb_false_iff. right. apply N.leb_gt. lia.
  - apply N.eqb_neq. lia.
  - apply N.eqb_neq. lia.
Qed.

Lemma parse_literal_digit_head (c : ascii) (r : JS.chars) :
  JS.is_digit c = true ->
  JS.parse_literal (JS.trim_start (c :: r)) = JS.parse_unsigned false (c :: r).
Proof.
  intros Hc. cbn [JS.trim_start]. rewrite digit_not_white by exact Hc.
  unfold JS.parse_literal.
  destruct (Ascii.eqb_spec c "+") as [->|_]; [discriminate Hc|].
  destruct (Ascii.eqb_spec c "-") as [->|_]; [discriminate Hc|].
  reflexivity.
Qed.

(** Reading back the text of a Number gives the Number, but for the sign of
    a zero, which [String] does not print. *)
Lemma parseFloat_toString (x : JS.number) :
  valid_binary JS.prec JS.emax x = true ->
  JS.parseFloat (JS.toString x) = JS.positive_zero x.
Proof.
  intros V. unfold JS.parseFloat, JS.toString.
  rewrite list_ascii_of_string_of_list_ascii.
  destruct x as [s|s| |s m e]; [reflexivity|now destruct s|reflexivity|].
  cbn [JS.toString_chars JS.positive_zero valid_binary] in *.
  destruct (shortest_decimal_denotes m e V) as [R N].
  destruct (JS.shortest_decimal m e) as [d n]. cbn [fst snd] in R, N.
  pose proof (dec_digits_all_digits d) as AD.
  pose proof (dec_digits_not_nil d) as NN.
  pose proof (parse_format_decimal s (JS.dec_digits d) n AD NN) as PF.
  rewrite digits_value_dec_digits in PF by exact N.
  fold (JS.ndigits d) in PF.
  unfold JS.parseFloat_chars.
  destruct s; cbn [app].
  - change (JS.parse_literal
              (JS.trim_start ("-"%char :: JS.format_decimal (JS.dec_digits d) n)))
      with (JS.parse_unsigned true (JS.format_decimal (JS.dec_digits d) n)).
    now rewrite PF, round_decimal_opp, R.
  - destruct (format_decimal_head (JS.dec_digits d) n AD NN) as (c & r & E & Hc).
    rewrite E in *. rewrite parse_literal_digit_head by exact Hc.
    now rewrite PF, R.
Qed.

(** ** The sign button, twice *)

Local Open Scope string_scope.

Lemma valid_binary_opp (x : JS.number) :
  valid_binary JS.prec JS.emax (SFopp x) = valid_binary JS.prec JS.emax x.
Proof. now destruct x. Qed.

Lemma valid_binary_positive_zero (x : JS.number) :
  valid_binary JS.prec JS.emax (JS.positive_zero x)
  = valid_binary JS.prec JS.emax x.
Proof. now destruct x. Qed.

Lemma toggle_sign_display (s : CalculatorState) :
  JS.parseFloat (displayValue (step s ToggleSign))
  = JS.positive_zero (SFopp (JS.parseFloat (displayValue s))).
Proof.
  cbn [step handleToggleSign displayValue].
  pose proof (parseFloat_valid (displayValue s)) as V.
  rewrite mul_minus_one by exact V.
  apply parseFloat_toString. now rewrite valid_binary_opp.
Qed.

Lemma opp_twice (x : JS.number) :
  JS.positive_zero (SFopp (JS.positive_zero (SFopp x))) = JS.positive_zero x.
Proof.
  destruct x as [z|i| |z m e]; try reflexivity;
    [now destruct i | now destruct z].
Qed.

(** C8. When the display reads as a finite number, pressing [+/-] twice
    gives a display that reads as the same number; only a negative zero
    comes back as the positive one. *)
Theorem toggle_sign_twice (s : CalculatorState) :
  JS.isFinite (JS.parseFloat (displayValue s)) = true ->
  let s'' := step (step s ToggleSign) ToggleSign in
  JS.parseFloat (displayValue s'')
  = JS.positive_zero (JS.parseFloat (displayValue s))
  /\ JS.same_value (JS.parseFloat (displayValue s''))
                   (JS.parseFloat (displayValue s)) = true.
Proof.
  intros _ s''. unfold s''.
  assert (E : JS.parseFloat (displayValue (step (step s ToggleSign) ToggleSign))
              = JS.positive_zero (JS.parseFloat (displayValue s)))
    by (now rewrite !toggle_sign_display, opp_twice).
  split; [exact E|]. rewrite E.
  destruct (JS.parseFloat (displayValue s)) as [z|i| |z m e]; simpl.
  - reflexivity.
  - now destruct i.
  - reflexivity.
  - now rewrite eqb_reflx, Pos.eqb_refl, Z.eqb_refl.
Qed.

Lemma toggle_sign_twice_witness :
  let s := run initialState [Digit D1; Digit D2; Decimal; Digit D5] in
  JS.isFinite (JS.parseFloat (displayValue s)) = true
  /\ JS.parseFloat
       (displayValue (step (step s ToggleSign) ToggleSign))
     = JS.parseFloat "12.5".
Proof.
  split; [reflexivity|].
  apply (toggle_sign_twice
           (run initialState [Digit D1; Digit D2; Decimal; Digit D5])).
  reflexivity.
Defined.

(* ================================================================= *)
(** * Further properties of the component *)

(** ** Typing a number *)

Lemma append_digit_not_zero (t : string) (d : digit_key) :
  t <> EmptyString -> t ++ digit_text d <> "0".
Proof.
  intros Ht E. destruct (digit_text_single d) as (c & Ec & _).
  rewrite Ec in E. destruct t as [|a [|b t]]; simpl in E;
    [congruence|discriminate|discriminate].
Qed.

(** Digits typed on a display that is neither awaited to be replaced nor
    [0] are appended to it. *)
Lemma digits_append (ds : list digit_key) :
  forall s,
    waitingForSecondOperand s = false ->
    displayValue s <> EmptyString -> displayValue s <> "0" ->
    displayValue (run s (map Digit ds)) = displayValue s ++ digits_text ds.
Proof.
  induction ds as [|d ds IH]; intros s W Hne Hz; simpl.
  - now rewrite string_app_empty_r.
  - apply String.eqb_neq in Hz.
    assert (E : displayValue (handleDigit (digit_text d) s)
                = displayValue s ++ digit_text d)
      by (unfold handleDigit; simpl; now rewrite W, Hz).
    change (fold_left step (map Digit ds) (handleDigit (digit_text d) s))
      with (run (handleDigit (digit_text d) s) (map Digit ds)).
    rewrite IH, E.
    + apply string_app_assoc.
    + reflexivity.
    + rewrite E. apply append_not_empty, digit_text_not_empty.
    + rewrite E. now apply append_digit_not_zero.
Qed.

Lemma typed_display_cons_nonzero (d : digit_key) (ds : list digit_key) :
  d <> D0 -> typed_display (d :: ds) = digit_text d ++ digits_text ds.
Proof. destruct d; intros H; try reflexivity. now elim H. Qed.

Lemma digit_key_eq_dec_D0 (d : digit_key) : {d = D0} + {d <> D0}.
Proof. destruct d; (now left) || (right; discriminate). Qed.

Lemma digit_text_zero (d : digit_key) : digit_text d = "0" -> d = D0.
Proof. destruct d; intros H; try discriminate H. reflexivity. Qed.

Lemma typed_digits_display_from_zero
  (s : CalculatorState) (ds : list digit_key) :
  waitingForSecondOperand s = true \/ displayValue s = "0" ->
  ds <> [] ->
  displayValue (run s (map Digit ds)) = typed_display ds.
Proof.
  revert s. induction ds as [|d ds IH]; intros s Hs Hne; [congruence|].
  simpl map. unfold run. simpl fold_left. fold (run (handleDigit (digit_text d) s)
                                                   (map Digit ds)).
  assert (E : displayValue (handleDigit (digit_text d) s) = digit_text d).
  { unfold handleDigit; simpl. destruct Hs as [W|Z0].
    - now rewrite W.
    - rewrite Z0. now rewrite orb_true_r. }
  destruct (digit_key_eq_dec_D0 d) as [->|Hd].
  - (* a leading zero is dropped *)
    destruct ds as [|d' ds'].
    + simpl. exact E.
    + change (typed_display (D0 :: d' :: ds')) with (typed_display (d' :: ds')).
      apply IH; [right; exact E|discriminate].
  - rewrite digits_append.
    + rewrite E. symmetry. now apply typed_display_cons_nonzero.
    + reflexivity.
    + rewrite E. apply digit_text_not_empty.
    + rewrite E. intros Z0. now apply digit_text_zero in Z0.
Qed.

(** X1. Digits typed while the display is [0] or a second operand is awaited
    show the number typed: the digits without leading zeros, or [0] when all
    of them are zeros.  In particular this is so in the identity state and
    after AC. *)
Theorem typed_digits_display (s : CalculatorState) (ds : list digit_key) :
  waitingForSecondOperand s = true \/ displayValue s = "0" ->
  ds <> [] ->
  displayValue (run s (map Digit ds)) = typed_display ds.
Proof. apply typed_digits_display_from_zero. Qed.

Lemma typed_digits_display_witness :
  displayValue (run (step errorState Clear)
                    (map Digit [D0; D0; D4; D0; D2])) = "402".
Proof.
  apply (typed_digits_display (step errorState Clear) [D0; D0; D4; D0; D2]).
  - right. reflexivity.
  - discriminate.
Defined.

Lemma includes_not_zero (t : string) :
  includes t "." = true -> t <> EmptyString /\ t <> "0".
Proof. intros I. split; intros ->; discriminate I. Qed.

(** X2. The point and then digits, in any state: the digits follow the
    point, which follows [0] when a second operand was awaited, is the point
    the display already held, or else is appended to the display. *)
Theorem typed_fraction_display (s : CalculatorState) (ds : list digit_key) :
  displayValue (run s (Decimal :: map Digit ds))
  = (if waitingForSecondOperand s then "0."
     else if includes (displayValue s) "." then displayValue s
          else displayValue s ++ ".")
    ++ digits_text ds.
Proof.
  unfold run. simpl fold_left. fold (run (handleDecimal s) (map Digit ds)).
  unfold handleDecimal.
  destruct (waitingForSecondOperand s) eqn:W.
  - rewrite digits_append; try reflexivity; discriminate.
  - destruct (includes (displayValue s) ".") eqn:I; simpl negb; cbv iota.
    + destruct (includes_not_zero _ I) as [Hne Hz].
      now rewrite digits_append.
    + rewrite digits_append; try reflexivity; simpl.
      * apply append_not_empty. discriminate.
      * intros E. apply (string_app_snoc_inv _ EmptyString "." "0") in E.
        destruct E as [_ E]. discriminate E.
Qed.

(** ** The pending operation *)

Lemma operator_text_injective (k1 k2 : operator_key) :
  operator_text k1 = operator_text k2 -> k1 = k2.
Proof. destruct k1, k2; intros H; try discriminate H; reflexivity. Qed.

Lemma operator_text_truthy (k : operator_key) :
  truthy (operator_text k) = true.
Proof. now destruct k. Qed.

Lemma is_string_true (o : option string) (t : string) :
  is_string o t = true <-> o = Some t.
Proof.
  destruct o as [u|]; simpl; [|split; discriminate].
  rewrite String.eqb_eq. split; congruence.
Qed.

(** The four parts of [pending_well_formed], when they are plain. *)
Ltac well_formed :=
  repeat split; simpl; try discriminate; try tauto; try assumption.

Lemma step_keeps_pending_well_formed (s : CalculatorState) (ev : event) :
  pending_well_formed s -> pending_well_formed (step s ev).
Proof.
  intros Hs. pose proof Hs as (P & W & A & K).
  assert (Init : pending_well_formed initialState) by well_formed.
  destruct ev as [d| |op| | | |]; simpl.
  - well_formed.
  - unfold handleDecimal.
    destruct (waitingForSecondOperand s) eqn:Ws; simpl; [well_formed|].
    destruct (includes (displayValue s) "."); simpl; [exact Hs|].
    unfold pending_well_formed; simpl; rewrite ?Ws. well_formed.
  - unfold handleOperator.
    destruct (_ && _)%bool; [exact Hs|].
    assert (New : forall dv x,
      pending_well_formed
        {| displayValue := dv; operator := Some (operator_text op);
           firstOperand := Some x; waitingForSecondOperand := true;
           activeOperator := Some (operator_text op) |}).
    { intros dv x. well_formed.
      intros o E. injection E as <-. now exists op. }
    destruct (firstOperand s) as [first|]; [|apply New].
    destruct (operator s) as [o|]; [|exact Hs].
    destruct (truthy o); [|exact Hs].
    destruct (negb (JS.isFinite _)); [exact Init|apply New].
  - unfold handleEquals.
    destruct (firstOperand s) as [first|] eqn:F.
    + destruct (operator s) as [o|] eqn:O.
      * destruct (negb (JS.isFinite _)); [exact Init|well_formed].
      * exfalso. destruct P as [P _]. specialize (P eq_refl). discriminate P.
    + assert (O : operator s = None) by tauto.
      rewrite O in *. unfold pending_well_formed; simpl. rewrite ?F, ?O.
      well_formed.
  - exact Hs.
  - exact Hs.
  - exact Init.
Qed.

Lemma reachable_pending_well_formed (s : CalculatorState) :
  reachable s -> pending_well_formed s.
Proof.
  apply invariant_reachable; [|exact step_keeps_pending_well_formed].
  well_formed.
Qed.

(** X3. In every reachable state an operator is pending exactly when a first
    operand is, a second operand is awaited only while both are, a
    highlighted operator is the pending one, and the pending operator is the
    text of one of the four operator buttons; every press keeps all this. *)
Theorem pending_operation_well_formed :
  (forall s, reachable s -> pending_well_formed s)
  /\ (forall s ev, pending_well_formed s -> pending_well_formed (step s ev)).
Proof.
  split; [exact reachable_pending_well_formed|].
  exact step_keeps_pending_well_formed.
Qed.

Lemma pending_operation_well_formed_witness :
  pending_well_formed
    (run initialState [Digit D5; Operator KDiv; Digit D0; Operator KAdd;
                       Digit D7; Operator KMul]).
Proof.
  apply (proj1 pending_operation_well_formed), reachable_from_initial.
Defined.

(** ** The highlighted operator button *)

Lemma active_style_iff (s : CalculatorState) (op : string) :
  In (Some operatorButtonActive) (getOperatorButtonStyles s op)
  <-> activeOperator s = Some op.
Proof.
  unfold getOperatorButtonStyles. rewrite <- is_string_true.
  destruct (is_string (activeOperator s) op); simpl.
  - split; [reflexivity|]. intros _. right. now left.
  - split; [|discriminate]. intros [H|[H|[]]]; discriminate H.
Qed.

Lemma active_text_style_iff (s : CalculatorState) (op : string) :
  In (Some operatorButtonTextActive) (getOperatorButtonTextStyles s op)
  <-> activeOperator s = Some op.
Proof.
  unfold getOperatorButtonTextStyles. rewrite <- is_string_true.
  destruct (is_string (activeOperator s) op); simpl.
  - split; [reflexivity|]. intros _. right. now left.
  - split; [|discriminate]. intros [H|[H|[]]]; discriminate H.
Qed.

(** X4. In no state do two operator buttons carry the active style, and a
    button carries it exactly when its text does.  In a reachable state the
    button that carries it is the pending operator, and the second operand is
    awaited. *)
Theorem one_operator_highlighted :
  (forall s k1 k2,
      In (Some operatorButtonActive)
         (getOperatorButtonStyles s (operator_text k1)) ->
      In (Some operatorButtonActive)
         (getOperatorButtonStyles s (operator_text k2)) ->
      k1 = k2)
  /\ (forall s k,
        In (Some operatorButtonActive)
           (getOperatorButtonStyles s (operator_text k))
        <-> In (Some operatorButtonTextActive)
               (getOperatorButtonTextStyles s (operator_text k)))
  /\ (forall s k, reachable s ->
        In (Some operatorButtonActive)
           (getOperatorButtonStyles s (operator_text k)) ->
        operator s = Some (operator_text k)
        /\ firstOperand s <> None
        /\ waitingForSecondOperand s = true).
Proof.
  split; [|split].
  - intros s k1 k2 H1 H2. apply active_style_iff in H1, H2.
    apply operator_text_injective. congruence.
  - intros s k. now rewrite active_style_iff, active_text_style_iff.
  - intros s k Hs H. apply active_style_iff in H.
    destruct (reachable_pending_well_formed s Hs) as (P & _ & A & _).
    pose proof (A _ H) as O. split; [exact O|]. split.
    + intros F. apply P in F. congruence.
    + apply (invariant_reachable highlight_waits);
        [intros N; now elim N | exact step_keeps_highlight_waits
         | exact Hs | congruence].
Qed.

Lemma one_operator_highlighted_witness :
  let s := run initialState [Digit D8; Operator KSub] in
  operator s = Some "-" /\ firstOperand s <> None
  /\ waitingForSecondOperand s = true.
Proof.
  apply (proj2 (proj2 one_operator_highlighted)
           (run initialState [Digit D8; Operator KSub]) KSub).
  - apply reachable_from_initial.
  - right. left. reflexivity.
Defined.

(** ** Pressing an operator *)

(** X5. An operator pressed in a reachable state either gives the Error
    state or leaves that operator pending and highlighted, with a first
    operand, awaiting the second. *)
Theorem operator_press_outcome (s : CalculatorState) (k : operator_key) :
  reachable s ->
  let s' := step s (Operator k) in
  s' = errorState
  \/ (operator s' = Some (operator_text k)
      /\ activeOperator s' = Some (operator_text k)
      /\ firstOperand s' <> None
      /\ waitingForSecondOperand s' = true).
Proof.
  intros Hs. destruct (reachable_pending_well_formed s Hs) as (P & _ & A & K).
  simpl. unfold handleOperator.
  destruct (is_string (activeOperator s) (operator_text k)
            && waitingForSecondOperand s)%bool eqn:R.
  - apply andb_true_iff in R. destruct R as [R W].
    apply is_string_true in R. right. pose proof (A _ R) as O.
    repeat split; try assumption. intros F. apply P in F. congruence.
  - destruct (firstOperand s) as [first|] eqn:F.
    + destruct (operator s) as [o|] eqn:O.
      * destruct (K o eq_refl) as [k' ->]. rewrite operator_text_truthy.
        destruct (negb (JS.isFinite _)); [now left|].
        right. repeat split. discriminate.
      * exfalso. destruct P as [P _]. specialize (P eq_refl). discriminate P.
    + right. repeat split. discriminate.
Qed.

Lemma operator_press_outcome_witness :
  let s' := step (run initialState [Digit D2; Operator KAdd; Digit D3])
                 (Operator KMul) in
  s' = errorState
  \/ (operator s' = Some "*" /\ activeOperator s' = Some "*"
      /\ firstOperand s' <> None /\ waitingForSecondOperand s' = true).
Proof.
  apply (operator_press_outcome
           (run initialState [Digit D2; Operator KAdd; Digit D3]) KMul).
  apply reachable_from_initial.
Defined.

(** X6. In a reachable state an operator press changes nothing exactly when
    that operator is highlighted and the second operand is awaited: the last
    [return prevState] of [handleOperator] is never reached. *)
Theorem operator_ignored_iff_repeated (s : CalculatorState) (k : operator_key) :
  reachable s ->
  step s (Operator k) = s
  <-> activeOperator s = Some (operator_text k)
      /\ waitingForSecondOperand s = true.
Proof.
  intros Hs. split; [|intros [A W]; now apply repeated_operator].
  destruct (reachable_pending_well_formed s Hs) as (P & _ & _ & K).
  simpl. unfold handleOperator.
  destruct (is_string (activeOperator s) (operator_text k)
            && waitingForSecondOperand s)%bool eqn:R.
  - intros _. apply andb_true_iff in R. destruct R as [R W].
    now apply is_string_true in R.
  - destruct (firstOperand s) as [first|] eqn:F.
    + destruct (operator s) as [o|] eqn:O.
      * destruct (K o eq_refl) as [k' ->]. rewrite operator_text_truthy.
        destruct (negb (JS.isFinite _)); intros E.
        -- apply (f_equal firstOperand) in E. simpl in E. congruence.
        -- split; [now rewrite <- E | now rewrite <- E].
      * exfalso. destruct P as [P _]. specialize (P eq_refl). discriminate P.
    + intros E. apply (f_equal firstOperand) in E. simpl in E. congruence.
Qed.

Lemma operator_ignored_iff_repeated_witness :
  let s := run initialState [Digit D2; Operator KAdd] in
  step s (Operator KAdd) = s
  <-> activeOperator s = Some "+" /\ waitingForSecondOperand s = true.
Proof.
  apply (operator_ignored_iff_repeated
           (run initialState [Digit D2; Operator KAdd]) KAdd).
  apply reachable_from_initial.
Defined.

(** X7. Pressing [=] twice is the same as pressing it once, in every
    state. *)
Theorem equals_idempotent (s : CalculatorState) :
  step (step s Equals) Equals = step s Equals.
Proof.
  simpl. unfold handleEquals.
  destruct (firstOperand s) as [first|] eqn:F;
    destruct (operator s) as [o|] eqn:O; simpl; rewrite ?F, ?O;
    try reflexivity.
  now destruct (negb (JS.isFinite _)).
Qed.

(** X8. While an operation is pending in a reachable state, another
    operator, unless it is the highlighted one repeated, shows what [=] would
    show, and ends in the Error state exactly when [=] would. *)
Theorem operator_shows_what_equals_shows
  (s : CalculatorState) (k : operator_key) :
  reachable s ->
  firstOperand s <> None ->
  ~ (activeOperator s = Some (operator_text k)
     /\ waitingForSecondOperand s = true) ->
  displayValue (step s (Operator k)) = displayValue (step s Equals)
  /\ (step s (Operator k) = errorState <-> step s Equals = errorState).
Proof.
  intros Hs F N.
  destruct (reachable_pending_well_formed s Hs) as (P & _ & _ & K).
  simpl. unfold handleOperator, handleEquals.
  destruct (is_string (activeOperator s) (operator_text k)
            && waitingForSecondOperand s)%bool eqn:R.
  { exfalso. apply N. apply andb_true_iff in R. destruct R as [R W].
    now apply is_string_true in R. }
  destruct (firstOperand s) as [first|]; [|congruence].
  destruct (operator s) as [o|] eqn:O.
  - destruct (K o eq_refl) as [k' ->]. rewrite operator_text_truthy.
    destruct (negb (JS.isFinite _)); [now split|].
    split; [reflexivity|]. split; intros E.
    + apply (f_equal waitingForSecondOperand) in E. discriminate E.
    + apply (f_equal displayValue) in E. simpl in E.
      now apply toString_not_Error in E.
  - exfalso. destruct P as [P _]. specialize (P eq_refl). discriminate P.
Qed.

Lemma operator_shows_what_equals_shows_witness :
  let s := run initialState [Digit D2; Operator KAdd; Digit D3] in
  displayValue (step s (Operator KMul)) = displayValue (step s Equals).
Proof.
  apply (operator_shows_what_equals_shows
           (run initialState [Digit D2; Operator KAdd; Digit D3]) KMul).
  - apply reachable_from_initial.
  - discriminate.
  - intros [A _]. discriminate A.
Defined.

(** ** Edge cases of the sign button and of a pending [NaN] *)

(** X9. On a display that reads as zero the sign button shows [0]: the sign
    of a zero is not printed, so a minus sign cannot be typed ahead of a
    number. *)
Theorem toggle_sign_on_zero (s : CalculatorState) (negative : bool) :
  JS.parseFloat (displayValue s) = S754_zero negative ->
  displayValue (step s ToggleSign) = "0"
  /\ forall d, displayValue (run s [ToggleSign; Digit d]) = digit_text d.
Proof.
  intros Z0.
  assert (E : displayValue (step s ToggleSign) = "0")
    by (simpl; rewrite Z0; now destruct negative).
  split; [exact E|]. intros d.
  change (run s [ToggleSign; Digit d])
    with (handleDigit (digit_text d) (step s ToggleSign)).
  unfold handleDigit. cbn [displayValue]. rewrite E.
  now rewrite orb_true_r.
Qed.

Lemma toggle_sign_on_zero_witness :
  displayValue (run initialState [ToggleSign; Digit D5]) = "5".
Proof.
  apply (proj2 (toggle_sign_on_zero initialState false eq_refl) D5).
Defined.

Lemma operation_on_NaN (k : operator_key) (y : JS.number) :
  JS.isFinite (performOperation (operator_text k) JS.NaN y) = false.
Proof.
  destruct k; try reflexivity.
  unfold performOperation, operator_text.
  change ("/" =? "+") with false. change ("/" =? "-") with false.
  change ("/" =? "*") with false. change ("/" =? "/") with true.
  cbv iota. now destruct (JS.strict_eq y (JS.of_Z 0)).
Qed.

(** X10. Once [NaN] is the first operand of a pending operation, that
    operation can only end in the Error state, whatever is typed: [=] gives
    it, and so does every operator that is not the highlighted one
    repeated. *)
Theorem pending_NaN_ends_in_error (s : CalculatorState) (k : operator_key) :
  firstOperand s = Some JS.NaN ->
  operator s = Some (operator_text k) ->
  step s Equals = errorState
  /\ forall k',
      ~ (activeOperator s = Some (operator_text k')
         /\ waitingForSecondOperand s = true) ->
      step s (Operator k') = errorState.
Proof.
  intros F O. split.
  - simpl. unfold handleEquals. rewrite F, O.
    now rewrite operation_on_NaN.
  - intros k' N. simpl. unfold handleOperator.
    destruct (is_string (activeOperator s) (operator_text k')
              && waitingForSecondOperand s)%bool eqn:R.
    + exfalso. apply N. apply andb_true_iff in R. destruct R as [R W].
      now apply is_string_true in R.
    + rewrite F, O, operator_text_truthy. now rewrite operation_on_NaN.
Qed.

Lemma pending_NaN_ends_in_error_witness :
  run initialState [Digit D5; Operator KDiv; Digit D0; Equals;
                    Operator KAdd; Digit D7; Equals] = errorState.
Proof.
  apply (pending_NaN_ends_in_error
           (run initialState [Digit D5; Operator KDiv; Digit D0; Equals;
                              Operator KAdd; Digit D7]) KAdd);
    reflexivity.
Defined.

(** ** Texts of Numbers that are not finite *)

Lemma toString_finite_text (x : JS.number) :
  JS.isFinite x = true -> ~ nonfinite_text (JS.toString x).
Proof.
  intros Fx. unfold JS.toString, nonfinite_text.
  destruct x as [z|i| |neg m e]; try discriminate Fx.
  - simpl. intros [H|[H|H]]; discriminate H.
  - cbn [JS.toString_chars].
    destruct (JS.shortest_decimal m e) as [d n].
    destruct (format_decimal_head (JS.dec_digits d) n) as (c & r & E & Hc);
      auto with digits.
    rewrite E.
    assert (cN : c <> "N"%char) by (intros ->; discriminate Hc).
    assert (cI : c <> "I"%char) by (intros ->; discriminate Hc).
    assert (cM : c <> "-"%char) by (intros ->; discriminate Hc).
    destruct neg; simpl; intros [H|[H|H]]; try discriminate H;
      injection H; congruence.
Qed.

Lemma digit_text_finite_text (d : digit_key) : ~ nonfinite_text (digit_text d).
Proof. destruct d; intros [H|[H|H]]; discriminate H. Qed.

Lemma append_digit_finite_text (t : string) (d : digit_key) :
  ~ nonfinite_text (t ++ digit_text d).
Proof.
  destruct (digit_text_single d) as (c & -> & Hc).
  intros [H|[H|H]].
  - apply (string_app_snoc_inv t "Na" c "N") in H.
    destruct H as [_ ->]. discriminate Hc.
  - apply (string_app_snoc_inv t "Infinit" c "y") in H.
    destruct H as [_ ->]. discriminate Hc.
  - apply (string_app_snoc_inv t "-Infinit" c "y") in H.
    destruct H as [_ ->]. discriminate Hc.
Qed.

Lemma append_point_finite_text (t : string) : ~ nonfinite_text (t ++ ".").
Proof.
  intros [H|[H|H]].
  - apply (string_app_snoc_inv t "Na" "." "N") in H.
    destruct H as [_ H]. discriminate H.
  - apply (string_app_snoc_inv t "Infinit" "." "y") in H.
    destruct H as [_ H]. discriminate H.
  - apply (string_app_snoc_inv t "-Infinit" "." "y") in H.
    destruct H as [_ H]. discriminate H.
Qed.

Lemma step_keeps_finite_text (s : CalculatorState) (ev : event) :
  sign_or_percent ev = false ->
  ~ nonfinite_text (displayValue s) ->
  ~ nonfinite_text (displayValue (step s ev)).
Proof.
  intros Hev Hs.
  assert (Err : ~ nonfinite_text "Error")
    by (intros [H|[H|H]]; discriminate H).
  destruct ev as [d| |op| | | |]; try discriminate Hev; simpl.
  - destruct (_ || _)%bool;
      [apply digit_text_finite_text | apply append_digit_finite_text].
  - unfold handleDecimal.
    destruct (waitingForSecondOperand s); simpl.
    + intros [H|[H|H]]; discriminate H.
    + destruct (includes (displayValue s) "."); simpl;
        [exact Hs | apply append_point_finite_text].
  - unfold handleOperator.
    destruct (_ && _)%bool; [exact Hs|].
    destruct (firstOperand s) as [first|]; [|exact Hs].
    destruct (operator s) as [o|]; [|exact Hs].
    destruct (truthy o); [|exact Hs].
    destruct (JS.isFinite _) eqn:Fin; simpl; [|exact Err].
    now apply toString_finite_text.
  - unfold handleEquals.
    destruct (firstOperand s) as [first|]; [|exact Hs].
    destruct (operator s) as [o|]; [|exact Hs].
    destruct (JS.isFinite _) eqn:Fin; simpl; [|exact Err].
    now apply toString_finite_text.
  - intros [H|[H|H]]; discriminate H.
Qed.

(** X11. Digits, the point, the operators, [=] and AC never write [NaN],
    [Infinity] or [-Infinity] to the display: a result that is not finite is
    always shown as [Error].  Only the sign and percent buttons can show
    those texts. *)
Theorem nonfinite_text_only_by_sign_or_percent :
  (forall s ev,
      sign_or_percent ev = false ->
      ~ nonfinite_text (displayValue s) ->
      ~ nonfinite_text (displayValue (step s ev)))
  /\ (forall evs,
        forallb (fun ev => negb (sign_or_percent ev)) evs = true ->
        ~ nonfinite_text (displayValue (run initialState evs))).
Proof.
  split; [exact step_keeps_finite_text|].
  assert (G : forall evs s,
            forallb (fun ev => negb (sign_or_percent ev)) evs = true ->
            ~ nonfinite_text (displayValue s) ->
            ~ nonfinite_text (displayValue (run s evs))).
  { induction evs as [|ev evs IH]; intros s Hevs Hs; [exact Hs|].
    simpl in Hevs. apply andb_true_iff in Hevs. destruct Hevs as [Hev Hevs].
    apply negb_true_iff in Hev.
    apply IH; [exact Hevs|]. now apply step_keeps_finite_text. }
  intros evs Hevs. apply G; [exact Hevs|].
  intros [H|[H|H]]; discriminate H.
Qed.

Lemma nonfinite_text_only_by_sign_or_percent_witness :
  ~ nonfinite_text
      (displayValue
         (run initialState [Digit D5; Operator KDiv; Digit D0; Operator KAdd;
                            Decimal; Digit D1; Equals])).
Proof.
  apply (proj2 nonfinite_text_only_by_sign_or_percent). reflexivity.
Defined.

(** ** After [=] and after AC *)

(** X12. After [=] in a reachable state no second operand is awaited, so the
    next digit is appended to what [=] shows, and replaces it only when that
    is [0]. *)
Theorem digit_after_equals (s : CalculatorState) (d : digit_key) :
  reachable s ->
  waitingForSecondOperand (step s Equals) = false
  /\ displayValue (run s [Equals; Digit d])
     = if String.eqb (displayValue (step s Equals)) "0" then digit_text d
       else displayValue (step s Equals) ++ digit_text d.
Proof.
  intros Hs.
  assert (W : waitingForSecondOperand (step s Equals) = false).
  { destruct (reachable_pending_well_formed s Hs) as (P & W & _ & _).
    simpl. unfold handleEquals.
    destruct (firstOperand s) as [first|] eqn:F.
    - destruct (operator s) as [o|] eqn:O.
      + now destruct (negb (JS.isFinite _)).
      + exfalso. destruct P as [P _]. specialize (P eq_refl). discriminate P.
    - simpl. destruct (waitingForSecondOperand s); [|reflexivity].
      exfalso. apply W; [reflexivity|]. now apply P. }
  split; [exact W|].
  change (run s [Equals; Digit d])
    with (handleDigit (digit_text d) (step s Equals)).
  unfold handleDigit. cbn [displayValue]. now rewrite W.
Qed.

Lemma digit_after_equals_witness :
  displayValue (run initialState [Digit D2; Operator KAdd; Digit D3; Equals;
                                  Digit D7]) = "57".
Proof.
  apply (proj2 (digit_after_equals
                  (run initialState [Digit D2; Operator KAdd; Digit D3]) D7
                  (reachable_from_initial _))).
Defined.

Lemma digits_keep_pending (ds : list digit_key) :
  forall s,
    operator (run s (map Digit ds)) = operator s
    /\ firstOperand (run s (map Digit ds)) = firstOperand s
    /\ (ds <> [] ->
        waitingForSecondOperand (run s (map Digit ds)) = false
        /\ activeOperator (run s (map Digit ds)) = None).
Proof.
  induction ds as [|d ds IH]; intros s; [now repeat split|].
  change (run s (map Digit (d :: ds)))
    with (run (handleDigit (digit_text d) s) (map Digit ds)).
  destruct (IH (handleDigit (digit_text d) s)) as (O & F & W).
  repeat split; try assumption; destruct ds as [|d' ds'];
    try reflexivity; now apply W.
Qed.

(** X13. AC and then digits, after any presses from any state, leave the
    state of a freshly typed number: the display shows the digits typed
    (without leading zeros), nothing is pending and nothing is
    highlighted. *)
Theorem clear_then_digits
  (s : CalculatorState) (before : list event) (ds : list digit_key) :
  run s (before ++ Clear :: map Digit ds)%list
  = {| displayValue := typed_display ds;
       operator := None;
       firstOperand := None;
       waitingForSecondOperand := false;
       activeOperator := None |}.
Proof.
  assert (E : run s (before ++ Clear :: map Digit ds)%list
              = run initialState (map Digit ds))
    by (unfold run; now rewrite fold_left_app).
  rewrite E. clear E.
  destruct ds as [|d ds]; [reflexivity|].
  assert (D : displayValue (run initialState (map Digit (d :: ds)))
              = typed_display (d :: ds))
    by (apply typed_digits_display_from_zero;
        [right; reflexivity | discriminate]).
  destruct (digits_keep_pending (d :: ds) initialState) as (O & F & W).
  destruct W as [W A]; [discriminate|].
  destruct (run initialState (map Digit (d :: ds))) as [dv o f w a].
  cbn [displayValue operator firstOperand waitingForSecondOperand
       activeOperator initialState] in *.
  congruence.
Qed.

(** ** Arithmetic on the digit keys *)

(** X14. For any two digit keys [a] and [b], the presses [a], operator, [b],
    [=] from the identity state show the exact integer: the sum, the
    difference (with its sign) or the product; the division shows [Error]
    when [b] is [0] and the exact quotient when [b] divides [a]. *)
Theorem single_digit_arithmetic (a b : digit_key) :
  let shown k :=
    displayValue (run initialState [Digit a; Operator k; Digit b; Equals]) in
  shown KAdd = Z_text (digit_number a + digit_number b)
  /\ shown KSub = Z_text (digit_number a - digit_number b)
  /\ shown KMul = Z_text (digit_number a * digit_number b)
  /\ (digit_number b = 0 -> shown KDiv = "Error")
  /\ (digit_number b <> 0 ->
      digit_number a mod digit_number b = 0 ->
      shown KDiv = Z_text (digit_number a / digit_number b)).
Proof.
  destruct a, b; cbv zeta;
    (split; [vm_compute; reflexivity|]);
    (split; [vm_compute; reflexivity|]);
    (split; [vm_compute; reflexivity|]);
    (split; [intros B | intros B M]);
    first [ exfalso; vm_compute in *; congruence
          | vm_compute; reflexivity ].
Qed.

Lemma single_digit_arithmetic_witness :
  displayValue (run initialState [Digit D8; Operator KDiv; Digit D2; Equals])
  = "4".
Proof.
  apply (proj2 (proj2 (proj2 (proj2 (single_digit_arithmetic D8 D2)))));
    [discriminate|reflexivity].
Defined.

(** ** The operations give canonical binary64 Numbers *)

Local Close Scope string_scope.

Lemma iter_xO_pow2 (m d : positive) :
  Zpos (Pos.iter xO m d) = Zpos m * 2 ^ Zpos d.
Proof.
  induction d as [|d IH] using Pos.peano_ind.
  - cbn [Pos.iter]. rewrite Z.pow_1_r. lia.
  - rewrite Pos.iter_succ, (Pos2Z.inj_xO (Pos.iter xO m d)), IH.
    rewrite Pos2Z.inj_succ, Z.pow_succ_r by lia. ring.
Qed.

Lemma binary_round_valid (sx : bool) (mx : positive) (ex : Z) :
  valid (binary_round JS.prec JS.emax sx mx ex).
Proof.
  unfold valid, binary_round, shl_align.
  fold (fexp64 (Zpos (digits2_pos mx) + ex)).
  change (Zpos (digits2_pos mx)) with (Zdigits2 (Zpos mx)).
  destruct (fexp64 (Zdigits2 (Zpos mx) + ex) - ex) as [|d|d] eqn:D.
  - apply binary_round_aux_valid; lia.
  - apply binary_round_aux_valid; lia.
  - apply binary_round_aux_valid; [lia|].
    rewrite iter_xO_pow2, Zdigits2_mul_pow2 by lia.
    replace (Zdigits2 (Zpos mx) + Zpos d
             + fexp64 (Zdigits2 (Zpos mx) + ex))
      with (Zdigits2 (Zpos mx) + ex) by lia.
    lia.
Qed.

Lemma binary_normalize_valid (m e : Z) (szero : bool) :
  valid (binary_normalize JS.prec JS.emax m e szero).
Proof.
  destruct m as [|p|p]; [reflexivity| |]; apply binary_round_valid.
Qed.

Lemma add_valid (x y : JS.number) : valid x -> valid y -> valid (JS.add x y).
Proof.
  unfold valid. intros Vx Vy.
  destruct x as [sx|sx| |sx mx ex], y as [sy|sy| |sy my ey];
    try reflexivity; try assumption;
    try (destruct sx, sy; reflexivity).
  apply binary_normalize_valid.
Qed.

Lemma sub_valid (x y : JS.number) : valid x -> valid y -> valid (JS.sub x y).
Proof.
  unfold valid. intros Vx Vy.
  destruct x as [sx|sx| |sx mx ex], y as [sy|sy| |sy my ey];
    try reflexivity; try assumption;
    try (destruct sx, sy; reflexivity).
  apply binary_normalize_valid.
Qed.

Lemma Zdigits2_mul_lower (a b : positive) :
  Zdigits2 (Zpos a) + Zdigits2 (Zpos b) - 1 <= Zdigits2 (Zpos (a * b)).
Proof.
  rewrite !Zdigits2_log2, Pos2Z.inj_mul by lia.
  pose proof (Z.log2_mul_below (Zpos a) (Zpos b)). lia.
Qed.

Lemma mul_valid (x y : JS.number) : valid x -> valid y -> valid (JS.mul x y).
Proof.
  unfold valid. intros Vx Vy.
  destruct x as [sx|sx| |sx mx ex], y as [sy|sy| |sy my ey];
    try reflexivity.
  cbn [valid_binary] in Vx, Vy.
  destruct (bounded_canonical mx ex Vx) as [Cx _].
  destruct (bounded_canonical my ey Vy) as [Cy _].
  unfold JS.mul, SFmul. apply binary_round_aux_valid; [lia|].
  pose proof (Zdigits2_mul_lower mx my).
  pose proof (Zdigits2_pos mx). pose proof (Zdigits2_pos my).
  rewrite fexp64_eq in *. lia.
Qed.

Lemma div_core_general (p q : positive) (e1 e2 : Z) :
  let e' := Z.min (fexp64 (Zdigits2 (Zpos p) + e1 - (Zdigits2 (Zpos q) + e2)))
                  (e1 - e2) in
  SFdiv_core_binary JS.prec JS.emax (Zpos p) e1 (Zpos q) e2
  = ((Zpos p * 2 ^ (e1 - e2 - e')) / Zpos q, e',
     new_location (Zpos q) ((Zpos p * 2 ^ (e1 - e2 - e')) mod Zpos q)).
Proof.
  intros e'. unfold SFdiv_core_binary.
  fold (fexp64 (Zdigits2 (Zpos p) + e1 - (Zdigits2 (Zpos q) + e2))). fold e'.
  assert (He : 0 <= e1 - e2 - e') by (unfold e'; lia).
  assert (M : match e1 - e2 - e' with
              | 0 => Zpos p
              | Zpos _ => Z.shiftl (Zpos p) (e1 - e2 - e')
              | Zneg _ => 0
              end = Zpos p * 2 ^ (e1 - e2 - e')).
  { destruct (e1 - e2 - e') as [|s|s] eqn:Sh; [| |lia].
    - now rewrite Z.pow_0_r, Z.mul_1_r.
    - apply Z.shiftl_mul_pow2. lia. }
  rewrite M. unfold Z.div, Z.modulo.
  now destruct (Z.div_eucl (Zpos p * 2 ^ (e1 - e2 - e')) (Zpos q)).
Qed.

Lemma div_finite_valid (sx sy : bool) (p q : positive) (e1 e2 : Z) :
  valid (JS.div (S754_finite sx p e1) (S754_finite sy q e2)).
Proof.
  unfold valid, JS.div, SFdiv. rewrite div_core_general.
  set (t := Zdigits2 (Zpos p) + e1 - (Zdigits2 (Zpos q) + e2)).
  set (e' := Z.min (fexp64 t) (e1 - e2)).
  set (sh := e1 - e2 - e').
  assert (Hsh : 0 <= sh) by (unfold sh, e'; lia).
  assert (P2 : 0 < 2 ^ sh) by pow_pos.
  set (a := Zpos p * 2 ^ sh).
  assert (Ha : 0 < a) by (unfold a; nia).
  assert (Da : Zdigits2 a = Zdigits2 (Zpos p) + sh)
    by (unfold a; rewrite Zdigits2_mul_pow2; lia).
  apply binary_round_aux_valid.
  { apply Z.div_pos; lia. }
  pose proof (Zdigits2_bounds a Ha) as [Al _].
  pose proof (Zdigits2_bounds (Zpos q) eq_refl) as [_ Qu].
  pose proof (Zdigits2_pos q) as Dq.
  set (dq := Zdigits2 (Zpos q)) in *. set (da := Zdigits2 a) in *.
  assert (E1 : e' <= fexp64 t) by (unfold e'; lia).
  assert (E2 : e' <= e1 - e2) by (unfold e'; lia).
  assert (E3 : sh = e1 - e2 - e') by reflexivity.
  assert (E4 : t = Zdigits2 (Zpos p) + e1 - (dq + e2)) by reflexivity.
  clearbody e' sh t.
  destruct (Z.le_gt_cases dq (da - 1)) as [G|L].
  - assert (Q : 2 ^ (da - 1 - dq) <= a / Zpos q).
    { apply Z.div_le_lower_bound; [lia|].
      assert (0 < 2 ^ (da - 1 - dq)) by pow_pos.
      apply Z.le_trans with (2 ^ dq * 2 ^ (da - 1 - dq)); [nia|].
      rewrite <- Z.pow_add_r by lia.
      replace (dq + (da - 1 - dq)) with (da - 1) by lia. exact Al. }
    assert (Qp : 0 < a / Zpos q).
    { assert (0 < 2 ^ (da - 1 - dq)) by pow_pos. lia. }
    assert (Dq' : da - dq <= Zdigits2 (a / Zpos q)).
    { rewrite Zdigits2_log2 by exact Qp.
      apply Z.log2_le_pow2 in Q; lia. }
    rewrite !fexp64_eq in *. lia.
  - assert (Dq' : 0 <= Zdigits2 (a / Zpos q)).
    { destruct (Z.eq_dec (a / Zpos q) 0) as [->|N]; [simpl; lia|].
      assert (0 <= a / Zpos q) by (apply Z.div_pos; lia).
      rewrite Zdigits2_log2 by lia.
      pose proof (Z.log2_nonneg (a / Zpos q)). lia. }
    rewrite !fexp64_eq in *. lia.
Qed.

Lemma div_valid (x y : JS.number) : valid (JS.div x y).
Proof.
  destruct x as [sx|sx| |sx mx ex], y as [sy|sy| |sy my ey];
    try reflexivity.
  apply div_finite_valid.
Qed.

Lemma parseFloat_is_valid (t : string) : valid (JS.parseFloat t).
Proof. apply parseFloat_valid. Qed.

Local Open Scope string_scope.

Lemma performOperation_valid (op : string) (a b : JS.number) :
  valid a -> valid b -> valid (performOperation op a b).
Proof.
  intros Va Vb. unfold performOperation.
  destruct (op =? "+"); [now apply add_valid|].
  destruct (op =? "-"); [now apply sub_valid|].
  destruct (op =? "*"); [now apply mul_valid|].
  destruct (op =? "/"); [|exact Vb].
  destruct (JS.strict_eq b (JS.of_Z 0)); [reflexivity|apply div_valid].
Qed.

Lemma step_keeps_first_operand_valid (s : CalculatorState) (ev : event) :
  first_operand_valid s -> first_operand_valid (step s ev).
Proof.
  intros Hs. pose proof Hs as Hs'. unfold first_operand_valid in Hs'.
  destruct ev as [d| |op| | | |]; try exact Hs; try discriminate.
  - simpl. unfold handleDecimal.
    destruct (waitingForSecondOperand s); [exact Hs|].
    now destruct (includes (displayValue s) ".").
  - simpl. unfold handleOperator.
    destruct (_ && _)%bool; [exact Hs|].
    destruct (firstOperand s) as [first|] eqn:F.
    + destruct (operator s) as [o|]; [|exact Hs].
      destruct (truthy o); [|exact Hs].
      destruct (negb (JS.isFinite _)); [discriminate|].
      intros x E. injection E as <-.
      apply performOperation_valid; [now apply Hs'|apply parseFloat_is_valid].
    + intros x E. injection E as <-. apply parseFloat_is_valid.
  - simpl. unfold handleEquals.
    destruct (firstOperand s) as [first|] eqn:F.
    + destruct (operator s) as [o|].
      * destruct (negb (JS.isFinite _)); discriminate.
      * exact Hs'.
    + discriminate.
Qed.

Lemma reachable_first_operand_valid (s : CalculatorState) :
  reachable s -> first_operand_valid s.
Proof.
  apply invariant_reachable; [discriminate|].
  exact step_keeps_first_operand_valid.
Qed.

(** ** What is shown reads back as what was computed *)

(** X15. When [=] or a chained operator computes a finite result in a
    reachable state, the display it writes reads back as exactly that
    result (a negative zero as zero), and the chained operator keeps the
    result itself as first operand. *)
Theorem result_reads_back
  (s : CalculatorState) (a : JS.number) (o : string) (k : operator_key) :
  reachable s ->
  firstOperand s = Some a -> operator s = Some o ->
  let r := performOperation o a (JS.parseFloat (displayValue s)) in
  JS.isFinite r = true ->
  JS.parseFloat (displayValue (step s Equals)) = JS.positive_zero r
  /\ (~ (activeOperator s = Some (operator_text k)
         /\ waitingForSecondOperand s = true) ->
      JS.parseFloat (displayValue (step s (Operator k))) = JS.positive_zero r
      /\ firstOperand (step s (Operator k)) = Some r).
Proof.
  intros Hs F O r Fin.
  assert (V : valid r).
  { apply performOperation_valid; [|apply parseFloat_is_valid].
    now apply (reachable_first_operand_valid s Hs). }
  destruct (reachable_pending_well_formed s Hs) as (_ & _ & _ & K).
  destruct (K o O) as [k' ->].
  split.
  - simpl. unfold handleEquals. rewrite F, O. fold r. rewrite Fin. simpl.
    now apply parseFloat_toString.
  - intros N. simpl. unfold handleOperator.
    destruct (is_string (activeOperator s) (operator_text k)
              && waitingForSecondOperand s)%bool eqn:R.
    { exfalso. apply N. apply andb_true_iff in R. destruct R as [R W].
      now apply is_string_true in R. }
    rewrite F, O, operator_text_truthy. fold r. rewrite Fin. simpl.
    split; [now apply parseFloat_toString|reflexivity].
Qed.

Lemma result_reads_back_witness :
  let s := run initialState [Digit D1; Operator KDiv; Digit D3] in
  JS.parseFloat (displayValue (step s Equals))
  = JS.div (JS.of_Z 1) (JS.of_Z 3).
Proof.
  apply (proj1 (result_reads_back
                  (run initialState [Digit D1; Operator KDiv; Digit D3])
                  (JS.of_Z 1) "/" KAdd
                  (reachable_from_initial _) eq_refl eq_refl eq_refl)).
Defined.

(** X16. While an operation with a finite result is pending in a reachable
    state, [=] followed by an operator leaves the state that the operator
    alone leaves (unless it is the highlighted one repeated), but for the
    sign of a zero result, which [=] drops. *)
Theorem equals_then_operator
  (s : CalculatorState) (a : JS.number) (o : string) (k : operator_key) :
  reachable s ->
  firstOperand s = Some a -> operator s = Some o ->
  JS.isFinite (performOperation o a (JS.parseFloat (displayValue s))) = true ->
  ~ (activeOperator s = Some (operator_text k)
     /\ waitingForSecondOperand s = true) ->
  let s1 := step s (Operator k) in
  let s2 := run s [Equals; Operator k] in
  displayValue s2 = displayValue s1
  /\ operator s2 = operator s1
  /\ waitingForSecondOperand s2 = waitingForSecondOperand s1
  /\ activeOperator s2 = activeOperator s1
  /\ firstOperand s2 = option_map JS.positive_zero (firstOperand s1).
Proof.
  intros Hs F O Fin N s1 s2.
  assert (V : valid (performOperation o a (JS.parseFloat (displayValue s)))).
  { apply performOperation_valid; [|apply parseFloat_is_valid].
    now apply (reachable_first_operand_valid s Hs). }
  destruct (reachable_pending_well_formed s Hs) as (_ & _ & _ & K).
  destruct (K o O) as [k' ->].
  assert (E1 : s1 = {| displayValue :=
                         JS.toString (performOperation (operator_text k') a
                                        (JS.parseFloat (displayValue s)));
                       operator := Some (operator_text k);
                       firstOperand :=
                         Some (performOperation (operator_text k') a
                                 (JS.parseFloat (displayValue s)));
                       waitingForSecondOperand := true;
                       activeOperator := Some (operator_text k) |}).
  { unfold s1. simpl. unfold handleOperator.
    destruct (is_string (activeOperator s) (operator_text k)
              && waitingForSecondOperand s)%bool eqn:R.
    { exfalso. apply N. apply andb_true_iff in R. destruct R as [R W].
      now apply is_string_true in R. }
    now rewrite F, O, operator_text_truthy, Fin. }
  assert (E2 : step s Equals
               = {| displayValue :=
                      JS.toString (performOperation (operator_text k') a
                                     (JS.parseFloat (displayValue s)));
                    operator := None; firstOperand := None;
                    waitingForSecondOperand := false;
                    activeOperator := None |}).
  { simpl. unfold handleEquals. now rewrite F, O, Fin. }
  change s2 with (step (step s Equals) (Operator k)).
  rewrite E1, E2. simpl. unfold handleOperator. simpl.
  repeat split. f_equal. now apply parseFloat_toString.
Qed.

Lemma equals_then_operator_witness :
  let s := run initialState [Digit D2; Operator KAdd; Digit D3] in
  displayValue (run s [Equals; Operator KMul])
  = displayValue (step s (Operator KMul)).
Proof.
  apply (equals_then_operator
           (run initialState [Digit D2; Operator KAdd; Digit D3])
           (JS.of_Z 2) "+" KMul (reachable_from_initial _)
           eq_refl eq_refl eq_refl).
  intros [A _]. discriminate A.
Defined.

(** X17. In every state, what the sign button shows reads back as the exact
    negation of what the display read before, and what the percent button
    shows as the binary64 quotient by 100 of it (a negative zero as
    zero). *)
Theorem sign_and_percent_read_back (s : CalculatorState) :
  JS.parseFloat (displayValue (step s ToggleSign))
  = JS.positive_zero (SFopp (JS.parseFloat (displayValue s)))
  /\ JS.parseFloat (displayValue (step s Percent))
     = JS.positive_zero (JS.div (JS.parseFloat (displayValue s))
                                (JS.of_Z 100)).
Proof.
  split; [apply toggle_sign_display|].
  cbn [step handlePercent displayValue].
  apply parseFloat_toString, div_valid.
Qed.

(** ** The size of the buttons *)

Local Close Scope string_scope.

Lemma binary_round_aux_not_NaN (sx : bool) (mx ex : Z) (lx : location) :
  0 <= mx -> binary_round_aux JS.prec JS.emax sx mx ex lx <> S754_nan.
Proof.
  intros Hm. unfold binary_round_aux.
  destruct (shr_fexp_shape mx ex lx Hm) as (mrs1 & E1 & M1). rewrite E1.
  pose proof (round_nearest_even_bounds (shr_m mrs1) (loc_of_shr_record mrs1))
    as R.
  assert (Hm1 : 0 <= shr_m mrs1)
    by (rewrite M1; apply Z.div_pos; [lia|pow_pos]).
  assert (Hm2 : 0 <= round_nearest_even (shr_m mrs1)
                       (loc_of_shr_record mrs1)) by lia.
  destruct (shr_fexp_shape _ (ex + Z.max (fexp64 (Zdigits2 mx + ex) - ex) 0)
              loc_Exact Hm2) as (mrs2 & E2 & M2).
  rewrite E2.
  assert (Hm3 : 0 <= shr_m mrs2)
    by (rewrite M2; apply Z.div_pos; [lia|pow_pos]).
  destruct (shr_m mrs2) as [|m3|m3]; [discriminate| |lia].
  destruct (_ <=? _)%Z; discriminate.
Qed.

Lemma binary_normalize_not_NaN (m e : Z) (szero : bool) :
  binary_normalize JS.prec JS.emax m e szero <> S754_nan.
Proof.
  destruct m as [|p|p]; [discriminate| |]; unfold binary_normalize,
    binary_round; destruct (shl_align _ _ _) as [mz ez];
    apply binary_round_aux_not_NaN; lia.
Qed.

Lemma mul_finite_not_NaN (x : JS.number) (sy : bool) (my : positive) (ey : Z) :
  x <> JS.NaN -> JS.mul x (S754_finite sy my ey) <> JS.NaN.
Proof.
  intros Hx. destruct x as [sx|sx| |sx mx ex]; try discriminate;
    [now elim Hx|].
  apply binary_round_aux_not_NaN. lia.
Qed.

Lemma sub_finite_not_NaN (x : JS.number) (sy : bool) (my : positive) (ey : Z) :
  x <> JS.NaN -> JS.sub x (S754_finite sy my ey) <> JS.NaN.
Proof.
  intros Hx. destruct x as [sx|sx| |sx mx ex]; try discriminate;
    [now elim Hx|].
  apply binary_normalize_not_NaN.
Qed.

Lemma div_finite_not_NaN (x : JS.number) (sy : bool) (my : positive) (ey : Z) :
  x <> JS.NaN -> JS.div x (S754_finite sy my ey) <> JS.NaN.
Proof.
  intros Hx. destruct x as [sx|sx| |sx mx ex]; try discriminate;
    [now elim Hx|].
  unfold JS.div, SFdiv. rewrite div_core_general.
  apply binary_round_aux_not_NaN. apply Z.div_pos; [|lia].
  apply Z.mul_nonneg_nonneg; [lia|]. apply Z.pow_nonneg. lia.
Qed.

Lemma SFcompare_antisym (x y : JS.number) :
  SFcompare x y = option_map CompOpp (SFcompare y x).
Proof.
  destruct x as [sx|sx| |sx mx ex], y as [sy|sy| |sy my ey];
    try reflexivity; try (now destruct sx); try (now destruct sy);
    try (now destruct sx, sy).
  assert (P : Pos.compare_cont Eq mx my
              = CompOpp (Pos.compare_cont Eq my mx))
    by (symmetry; apply (Pos.compare_cont_antisym my mx Eq)).
  unfold SFcompare. rewrite P, (Z.compare_antisym ey ex).
  destruct sx, sy; try reflexivity;
    destruct (ey ?= ex)%Z; try reflexivity;
    now destruct (Pos.compare_cont Eq my mx).
Qed.

Lemma SFleb_refl (x : JS.number) : x <> JS.NaN -> SFleb x x = true.
Proof.
  intros Hx. destruct x as [s|s| |s m e]; [reflexivity|now destruct s| |].
  - now elim Hx.
  - unfold SFleb, SFcompare.
    rewrite Z.compare_refl, Pos.compare_cont_refl. now destruct s.
Qed.

(** [Math.min] with a first argument that is finite and not zero. *)
Lemma min_finite_left (s : bool) (m : positive) (e : Z) (y : JS.number) :
  y <> JS.NaN ->
  Math.min (S754_finite s m e) y <> JS.NaN
  /\ number_le (Math.min (S754_finite s m e) y) (S754_finite s m e)
  /\ number_le (Math.min (S754_finite s m e) y) y.
Proof.
  intros Hy. unfold number_le.
  assert (E : Math.min (S754_finite s m e) y
              = if SFltb y (S754_finite s m e) then y else S754_finite s m e)
    by (destruct y; try reflexivity; now elim Hy).
  assert (Rx : SFleb (S754_finite s m e) (S754_finite s m e) = true)
    by (apply SFleb_refl; discriminate).
  pose proof (SFleb_refl y Hy) as Ry.
  pose proof (SFcompare_antisym (S754_finite s m e) y) as A.
  rewrite E. unfold SFltb.
  destruct (SFcompare y (S754_finite s m e)) as [[| |]|] eqn:C.
  - repeat split; [discriminate|exact Rx|]. unfold SFleb. now rewrite A.
  - repeat split; [exact Hy| |exact Ry]. unfold SFleb. now rewrite C.
  - repeat split; [discriminate|exact Rx|]. unfold SFleb. now rewrite A.
  - exfalso. destruct y as [sy|sy| |sy my ey]; try discriminate C.
    now elim Hy.
Qed.

(** Replaces a closed Number by its value. *)
Ltac evaluate_number c :=
  let v := eval vm_compute in c in change c with v.

(** X18. Whatever the window, [buttonSize] is at most 83.5, the size at
    which four buttons with their margins and the padding make the maximal
    width of 370, and at most the size got from the height,
    [(height * 0.6 - 20 - 40) / 5]; it is [NaN] only for a window height that
    is [NaN]. *)
Theorem button_size_bounded (dimensions : ScaledSize) :
  height dimensions <> JS.NaN ->
  buttonSize dimensions <> JS.NaN
  /\ number_le (buttonSize dimensions) (JS.round_decimal false 835 (-1))
  /\ number_le (buttonSize dimensions)
       (JS.div (JS.sub (JS.sub (JS.mul (height dimensions)
                                       (JS.round_decimal false 6 (-1)))
                               (JS.of_Z 20))
                       (JS.of_Z 40))
               (JS.of_Z 5))
  /\ JS.add (JS.mul BUTTONS_PER_ROW
                    (JS.add (JS.round_decimal false 835 (-1))
                            (JS.mul BUTTON_MARGIN (JS.of_Z 2))))
            BUTTON_CONTAINER_PADDING
     = MAX_CALC_WIDTH.
Proof.
  intros Hh. unfold buttonSize. cbv zeta.
  evaluate_number
    (JS.div
       (JS.sub (JS.sub MAX_CALC_WIDTH BUTTON_CONTAINER_PADDING)
          (JS.mul (JS.mul BUTTON_MARGIN (JS.of_Z 2)) BUTTONS_PER_ROW))
       BUTTONS_PER_ROW).
  evaluate_number (JS.round_decimal false 835 (-1)).
  evaluate_number (JS.round_decimal false 6 (-1)).
  evaluate_number (JS.mul (JS.of_Z 10) (JS.of_Z 2)).
  evaluate_number (JS.mul (JS.of_Z 10) (JS.sub (JS.of_Z 5) (JS.of_Z 1))).
  evaluate_number (JS.of_Z 20).
  evaluate_number (JS.of_Z 40).
  evaluate_number (JS.of_Z 5).
  match goal with
  | |- Math.min ?w ?y <> _ /\ _ =>
      assert (Hy : y <> JS.NaN)
        by (apply div_finite_not_NaN, sub_finite_not_NaN,
              sub_finite_not_NaN, mul_finite_not_NaN, Hh);
      destruct (min_finite_left false 5875790138834944 (-46) y Hy)
        as (N & Lw & Ly)
  end.
  split; [exact N|]. split; [exact Lw|]. split; [exact Ly|].
  vm_compute. reflexivity.
Qed.

Lemma button_size_bounded_witness :
  number_le (buttonSize {| width := JS.of_Z 390; height := JS.of_Z 640 |})
            (JS.round_decimal false 835 (-1)).
Proof.
  apply (button_size_bounded
           {| width := JS.of_Z 390; height := JS.of_Z 640 |}).
  discriminate.
Defined.
